(** * Query routing and response synthesis core: a shallow embedding

    The JavaScript sources embedded here are
    - [backend/src/utils/advancedRateLimiter.js]  (module [RateLimiter]),
    - [backend/src/services/responseMerger.js]    (module [ResponseMerger]),
    - [backend/src/utils/cache.js]                (module [CacheManager]),
    - [backend/src/utils/distributedCache.js]     (module [DistributedCache]),
    - [backend/ml/entityRecognition.js]           (module [EntityRecognition]),
    - [backend/ml/intentModel.js]                 (module [IntentModel]),
    - [backend/src/services/intentDetector.js]    (module [IntentDetector]),
    - [backend/src/utils/analytics.js]            (module [Analytics]),
    - [backend/src/utils/alerts.js]               (module [AlertManager]),
    - [backend/src/utils/sessionManager.js]       (module [SessionManager]),
    - [backend/ml/responseRanker.js]              (module [ResponseRanker]),
    - [backend/src/services/realtime.js]          (module [Realtime]).

    Conventions.  Instants and durations are integers in milliseconds
    ([Z]); every [Date.now()] of the source is an explicit argument.  JavaScript
    [Map]s and plain objects used as dictionaries are finite maps ([gmap]).
    Fractional numbers are exact rationals ([Q]): the floating-point results
    of the source differ from them by rounding, so the properties of scores are
    stated with strict bounds or a tolerance where the last digits matter.
    Texts are byte strings; a property that depends on case mapping, on the
    classes [\w] and [\s] or on the length of a text is stated for ASCII
    text ([Js.isAscii]).  A function that can raise returns a [completion]. *)

From Stdlib Require Import ZArith QArith Qminmax List Bool Ascii String Lia Lqa.
From Stdlib Require Import Sorted Permutation.
From stdpp Require Import base option numbers list strings pretty gmap fin_maps.

Open Scope Z_scope.

(** ** Rate limiter: [advancedRateLimiter.js] *)

Module RateLimiter.

(** One entry of [this.limits]: [{ requests, window }]. *)
Record Limit := mkLimit { l_requests : Z; l_window : Z }.

Record Limits := mkLimits { perUser : Limit; perSession : Limit; perIP : Limit }.

(** A tracked window: [{ requests, firstRequest, dynamic }]. *)
Record WindowRecord := mkRecord { requests : Z; firstRequest : Z; dynamic : Z }.

Record Trackers := mkTrackers {
  byUser : gmap string WindowRecord;
  bySession : gmap string WindowRecord;
  byIP : gmap string WindowRecord }.

Record Limiter := mkLimiter {
  limits : Limits;
  trackers : Trackers;
  blocklist : gmap string Z }.

(** The constructor's state; the cleanup timer it installs calls [cleanup]
    every [cleanupPeriod] milliseconds. *)
Definition hour : Z := 60 * 60 * 1000.
Definition cleanupPeriod : Z := 5 * 60 * 1000.

Definition defaultLimits : Limits :=
  {| perUser := mkLimit 100 hour; perSession := mkLimit 50 hour; perIP := mkLimit 500 hour |}.

Definition constructor : Limiter :=
  {| limits := defaultLimits;
     trackers := mkTrackers ∅ ∅ ∅;
     blocklist := ∅ |}.

(** [type.charAt(0).toUpperCase() + type.slice(1)] on an ASCII string.
    (Outside ASCII, [toUpperCase] also maps U+017F to [S] and U+0131 to
    [I].) *)
Definition upperChar (c : ascii) : ascii :=
  let n := nat_of_ascii c in
  if ((97 <=? n) && (n <=? 122))%nat then ascii_of_nat (n - 32) else c.

Definition capitalize (type : string) : string :=
  match type with
  | EmptyString => EmptyString
  | String c rest => String (upperChar c) rest
  end.

(** The three property names that exist on [this.trackers] / [this.limits];
    [this.trackers["by" + X]] and [this.limits["per" + X]] are both defined
    exactly when [X] is one of [User], [Session], [IP]. *)
Inductive Scope := ScUser | ScSession | ScIP.

Definition resolve (type : string) : option Scope :=
  let x := capitalize type in
  if String.eqb x "User" then Some ScUser
  else if String.eqb x "Session" then Some ScSession
  else if String.eqb x "IP" then Some ScIP
  else None.

Definition trackerOf (sc : Scope) (t : Trackers) : gmap string WindowRecord :=
  match sc with ScUser => byUser t | ScSession => bySession t | ScIP => byIP t end.

Definition limitOf (sc : Scope) (l : Limits) : Limit :=
  match sc with ScUser => perUser l | ScSession => perSession l | ScIP => perIP l end.

(** [tracker.set(identifier, record)] on the tracker selected by the scope. *)
Definition setTracker (sc : Scope) (identifier : string) (r : WindowRecord)
    (t : Trackers) : Trackers :=
  match sc with
  | ScUser => mkTrackers (<[identifier := r]> (byUser t)) (bySession t) (byIP t)
  | ScSession => mkTrackers (byUser t) (<[identifier := r]> (bySession t)) (byIP t)
  | ScIP => mkTrackers (byUser t) (bySession t) (<[identifier := r]> (byIP t))
  end.

(** [remaining] is [Number.POSITIVE_INFINITY] for an untracked scope. *)
Inductive Remaining := Infinite | Finite (n : Z).

(** [retryAfter] is absent for an untracked scope, [null] when allowed,
    and [300] when denied; absent and [null] are both [None]. *)
Record CheckResult := mkResult {
  allowed : bool;
  remaining : Remaining;
  retryAfter : option Z }.

(** [addToBlocklist(identifier, durationMs)]; [now] is its own clock read. *)
Definition addToBlocklist (L : Limiter) (identifier : string) (durationMs now : Z) : Limiter :=
  {| limits := limits L;
     trackers := trackers L;
     blocklist := <[identifier := now + durationMs]> (blocklist L) |}.

(** [checkLimit(identifier, type)].  [now] is the clock read at the top of
    the function, [now'] the one taken inside [addToBlocklist] when the
    request is denied. *)
Definition checkLimit (L : Limiter) (identifier type : string) (now now' : Z)
    : CheckResult * Limiter :=
  match resolve type with
  | None => (mkResult true Infinite None, L)
  | Some sc =>
    let tracker := trackerOf sc (trackers L) in
    let limit := limitOf sc (limits L) in
    let record :=
      match tracker !! identifier with
      | Some r =>
          if now - firstRequest r >? l_window limit
          then mkRecord 0 now (l_requests limit)
          else r
      | None => mkRecord 0 now (l_requests limit)
      end in
    let record := mkRecord (requests record + 1) (firstRequest record) (dynamic record) in
    let L1 := mkLimiter (limits L) (setTracker sc identifier record (trackers L)) (blocklist L) in
    let allowed := requests record <=? dynamic record in
    let L2 := if allowed then L1 else addToBlocklist L1 identifier (5 * 60 * 1000) now' in
    (mkResult allowed
              (Finite (Z.max 0 (dynamic record - requests record)))
              (if allowed then None else Some 300),
     L2)
  end.

(** [isBlocked(identifier)]: a stored instant of [0] is falsy. *)
Definition isBlocked (L : Limiter) (identifier : string) (now : Z) : bool * Limiter :=
  match blocklist L !! identifier with
  | None => (false, L)
  | Some blockTime =>
      if blockTime =? 0 then (false, L)
      else if blockTime <? now
      then (false, mkLimiter (limits L) (trackers L) (delete identifier (blocklist L)))
      else (true, L)
  end.

(** [adjustLimitsBasedOnLoad(cpuUsage, memoryUsage)]. *)
Definition adjustLimitsBasedOnLoad (L : Limiter) (cpuUsage memoryUsage : Q) : Limiter :=
  let highLoad := (negb (Qle_bool cpuUsage 80) || negb (Qle_bool memoryUsage 85))%bool in
  let ls := limits L in
  let set (s u : Z) :=
    mkLimits (mkLimit u (l_window (perUser ls)))
             (mkLimit s (l_window (perSession ls)))
             (perIP ls) in
  mkLimiter (if highLoad then set 25 50 else set 50 100) (trackers L) (blocklist L).

(** [cleanup()]: the two sweeps of the source, over [trackers.bySession]
    and over [blocklist]. *)
Definition cleanup (L : Limiter) (now : Z) : Limiter :=
  let t := trackers L in
  let session' :=
    filter (fun kr => ¬ (now - firstRequest kr.2 > l_window (perSession (limits L))))
           (bySession t) in
  let blocklist' := filter (fun kb => ¬ (kb.2 < now)) (blocklist L) in
  mkLimiter (limits L) (mkTrackers (byUser t) session' (byIP t)) blocklist'.

(** A run of consecutive [checkLimit] calls by one identity in one scope,
    each with its pair of clock reads. *)
Fixpoint checkMany (L : Limiter) (identifier type : string) (clock : list (Z * Z))
    : list CheckResult * Limiter :=
  match clock with
  | [] => ([], L)
  | (now, now') :: rest =>
      let '(r, L1) := checkLimit L identifier type now now' in
      let '(rs, L2) := checkMany L1 identifier type rest in
      (r :: rs, L2)
  end.

End RateLimiter.

(** ** Response merger: [responseMerger.js] *)

Module ResponseMerger.

(** The four keys the merger reads from [sources]:
    [{ realtime?, rag?, pdf?, llm }]. *)
Inductive Source := realtime | rag | pdf | llm.

Definition sourceName (s : Source) : string :=
  match s with realtime => "realtime" | rag => "rag" | pdf => "pdf" | llm => "llm" end.

Definition Source_eqb (a b : Source) : bool :=
  match a, b with
  | realtime, realtime | rag, rag | pdf, pdf | llm, llm => true
  | _, _ => false
  end.

(** Free-form metadata object. *)
Definition Metadata := list (string * string).

(** One source result.  [confidence] and [metadata] may be unset. *)
Record SourceResult := mkSource {
  success : bool;
  content : string;
  confidence : option Q;
  metadata : option Metadata }.

(** The [sources] argument: each key is present or absent. *)
Definition Sources := Source -> option SourceResult.

(** An entry of [sourceDetails]; the primary entry carries no [content]. *)
Record SourceDetail := mkDetail {
  source : Source;
  d_confidence : Q;
  d_content : option string;
  d_metadata : Metadata }.

Record Merged := mkMerged {
  primaryResponse : string;
  sourceDetails : list SourceDetail;
  confidenceScore : Q;
  usedSources : list Source }.

Definition priorityOrder (intent : string) : list Source :=
  if String.eqb intent "realtime" then [realtime; rag; pdf; llm]
  else if (String.eqb intent "rag" || String.eqb intent "pdf")%bool then [pdf; rag; realtime; llm]
  else [llm; rag; pdf; realtime].

(** [sources[source] && sources[source].success] *)
Definition succeeded (sources : Sources) (s : Source) : bool :=
  match sources s with Some r => success r | None => false end.

(** [c || d] on a possibly unset number: [undefined] and [0] are falsy. *)
Definition orDefault (c : option Q) (d : Q) : Q :=
  match c with
  | Some q => if Qeq_bool q 0 then d else q
  | None => d
  end.

(** [m || {}] *)
Definition metaOrEmpty (m : option Metadata) : Metadata :=
  match m with Some x => x | None => [] end.

(** First loop: the first successful source in priority order, with
    [highestConfidence]. *)
Fixpoint findPrimary (sources : Sources) (order : list Source) : option (Source * Q) :=
  match order with
  | [] => None
  | s :: rest =>
      match sources s with
      | Some r => if success r then Some (s, orDefault (confidence r) (8 # 10))
                  else findPrimary sources rest
      | None => findPrimary sources rest
      end
  end.

(** [content.substring(0, 100) + "..."] *)
Definition preview (c : string) : string := String.append (String.substring 0 100 c) "...".

(** Second loop: every other successful source, in priority order. *)
Fixpoint supplementary (sources : Sources) (primarySource : option Source)
    (order : list Source) : list SourceDetail :=
  match order with
  | [] => []
  | s :: rest =>
      let more := supplementary sources primarySource rest in
      let isPrimary := match primarySource with Some p => Source_eqb s p | None => false end in
      match sources s with
      | Some r =>
          if (negb isPrimary && success r)%bool
          then mkDetail s (orDefault (confidence r) (6 # 10)) (Some (preview (content r)))
                        (metaOrEmpty (metadata r)) :: more
          else more
      | None => more
      end
  end.

(** [mergeResponses(sources, query, intent)]; the promise it returns is
    always fulfilled with the merged object. *)
Definition mergeResponses (sources : Sources) (query intent : string) : Merged :=
  let order := priorityOrder intent in
  let found := findPrimary sources order in
  let primarySource := fst <$> found in
  let highestConfidence := match found with Some (_, c) => c | None => 0%Q end in
  let merged0 :=
    match primarySource with
    | Some p =>
        match sources p with
        | Some r =>
            mkMerged (content r)
                     [mkDetail p highestConfidence None (metaOrEmpty (metadata r))]
                     highestConfidence [p]
        | None => mkMerged "" [] 0%Q []
        end
    | None => mkMerged "" [] 0%Q []
    end in
  let extra := supplementary sources primarySource order in
  mkMerged (primaryResponse merged0)
           (sourceDetails merged0 ++ extra)
           (confidenceScore merged0)
           (usedSources merged0 ++ map source extra).

(** Sample inputs used below. *)
Definition onlyEmptyPdf : Sources :=
  λ s, match s with
       | pdf => Some (mkSource true "" (Some (9 # 10)) None)
       | _ => None
       end.

Definition liveAndPrivate : Sources :=
  λ s, match s with
       | realtime => Some (mkSource true "Paris: 18C, clear" (Some (9 # 10)) None)
       | pdf => Some (mkSource true "Chapter 3: climate of Paris" (Some (95 # 100)) None)
       | _ => None
       end.

Definition zeroConfidence : Sources :=
  λ s, match s with
       | llm => Some (mkSource true "Hello!" (Some 0%Q) None)
       | rag => Some (mkSource true "Notes on greetings" (Some 0%Q) None)
       | _ => None
       end.

End ResponseMerger.

(** ** Process-local cache: [cache.js] *)

Module CacheManager.
Section Cache.
(** Cached values are opaque to the cache. *)
Context {V : Type}.

Record Entry := mkEntry { value : V; expiryTime : Z }.

(** [set(key, value, ttlSeconds)] *)
Definition set (cache : gmap string Entry) (key : string) (v : V) (ttlSeconds now : Z)
    : gmap string Entry :=
  <[key := mkEntry v (now + ttlSeconds * 1000)]> cache.

(** [get(key)]: the returned value ([None] for [null]) and the store
    afterwards. *)
Definition get (cache : gmap string Entry) (key : string) (now : Z)
    : option V * gmap string Entry :=
  match cache !! key with
  | None => (None, cache)
  | Some cached =>
      if now >? expiryTime cached
      then (None, delete key cache)
      else (Some (value cached), cache)
  end.

Definition clear (cache : gmap string Entry) : gmap string Entry := ∅.

End Cache.
Arguments Entry : clear implicits.
End CacheManager.

(** ** Two-tier cache: [distributedCache.js] *)

Module DistributedCache.
Section Cache.
Context {V : Type}.
(** [JSON.parse]; [None] when it raises [SyntaxError] (the exception is
    caught and [get] returns [null]) or yields [null]. *)
Variable parse : string -> option V.

Record Entry := mkEntry { value : V; expiresAt : Z }.

(** What [await this.redis.get(key)] does: it resolves to a string or to
    [null], or it rejects. *)
Inductive Reply := Resolved (v : option string) | Rejected.

(** [this.redis] is [null] or a connected client, seen through the answer
    it gives to a [get]. *)
Record State := mkState {
  redis : option (string -> Reply);
  localCache : gmap string Entry }.

(** The local-tier part of [get]. *)
Definition getLocal (st : State) (key : string) (now : Z) : option V :=
  match localCache st !! key with
  | Some localValue =>
      if expiresAt localValue >? now then Some (value localValue) else None
  | None => None
  end.

(** [get(key)]: the returned value ([None] for [null]) and the state
    afterwards.  Every exception inside is caught and turned into [null]. *)
Definition get (st : State) (key : string) (now : Z) : option V * State :=
  match redis st with
  | Some client =>
      match client key with
      | Rejected => (None, st)
      | Resolved (Some v) =>
          if String.eqb v "" then (getLocal st key now, st)
          else (parse v, st)
      | Resolved None => (getLocal st key now, st)
      end
  | None => (getLocal st key now, st)
  end.

(** [set(key, value, ttlSeconds)].  [sharedWriteOk] tells whether the
    [setEx] of a configured client resolved; when it rejects, the exception
    is caught and the local write is skipped. *)
Definition set (st : State) (key : string) (v : V) (ttlSeconds now : Z)
    (sharedWriteOk : bool) : State :=
  let written :=
    mkState (redis st) (<[key := mkEntry v (now + ttlSeconds * 1000)]> (localCache st)) in
  match redis st with
  | Some _ => if sharedWriteOk then written else st
  | None => written
  end.

End Cache.
Arguments Entry : clear implicits.
Arguments State : clear implicits.
End DistributedCache.

(** ** JavaScript values shared by the classifier modules *)

Module Js.

Inductive Error :=
| TypeError (message : string)
| GenericError (message : string).

(** Outcome of a call: a value, or an exception that propagates. *)
Inductive completion (A : Type) :=
| Normal (a : A)
| Throw (e : Error).
Arguments Normal {A} a.
Arguments Throw {A} e.

Definition bind {A B} (c : completion A) (f : A -> completion B) : completion B :=
  match c with Normal a => f a | Throw e => Throw e end.

(** A number that may be [NaN]. *)
Inductive num := Fin (q : Q) | NaN.

Definition num_add (a b : num) : num :=
  match a, b with Fin x, Fin y => Fin (x + y) | _, _ => NaN end.
Definition num_mul (a b : num) : num :=
  match a, b with Fin x, Fin y => Fin (x * y) | _, _ => NaN end.
(** [a < b]; false as soon as one side is [NaN]. *)
Definition num_lt (a b : num) : bool :=
  match a, b with Fin x, Fin y => negb (Qle_bool y x) | _, _ => false end.

(** Strings are byte strings: ASCII text, with anything else carried as its
    UTF-8 bytes.  Case mapping acts on the ASCII letters. *)
Definition code (c : ascii) : nat := nat_of_ascii c.

(** The texts made of ASCII characters only.  On these a byte is a
    character, [length] counts what [String.prototype.length] counts, and the
    case mappings and the classes [\w] and [\s] below are those of
    JavaScript; outside ASCII, JavaScript also maps a few other letters to
    ASCII ones (U+212A to [k], U+017F to [S], U+0131 to [I]) and counts
    further code points as white space. *)
Definition isAscii (s : string) : bool :=
  forallb (fun c => (code c <? 128)%nat) (list_ascii_of_string s).
Definition between (lo hi : nat) (c : ascii) : bool :=
  ((lo <=? code c) && (code c <=? hi))%nat.
Definition isUpper : ascii -> bool := between 65 90.
Definition isLower : ascii -> bool := between 97 122.
Definition isDigit : ascii -> bool := between 48 57.
(** [\w] *)
Definition isWord (c : ascii) : bool :=
  (isUpper c || isLower c || isDigit c || (code c =? 95)%nat)%bool.
(** [\s] *)
Definition isSpace (c : ascii) : bool :=
  (between 9 13 c || (code c =? 32)%nat)%bool.

Definition lowerChar (c : ascii) : ascii :=
  if isUpper c then ascii_of_nat (code c + 32) else c.

Fixpoint toLowerCase (s : string) : string :=
  match s with
  | EmptyString => EmptyString
  | String c s' => String (lowerChar c) (toLowerCase s')
  end.

(** [s.includes(k)] *)
Fixpoint includes (s k : string) : bool :=
  if String.prefix k s then true
  else match s with
       | EmptyString => false
       | String _ s' => includes s' k
       end.

(** [xs.includes(x)] on an array of strings. *)
Definition arrayIncludes (xs : list string) (x : string) : bool :=
  existsb (String.eqb x) xs.

(** [xs.join(sep)] *)
Fixpoint join (sep : string) (xs : list string) : string :=
  match xs with
  | [] => EmptyString
  | [x] => x
  | x :: rest => String.append x (String.append sep (join sep rest))
  end.

End Js.

(** ** Regular expressions: the fragment used by [entityRecognition.js] *)

Module Regex.
Import Js.

Inductive re :=
| Eps
| Cls (p : ascii -> bool)      (* a character class *)
| Seq (a b : re)
| Alt (a b : re)               (* [a|b], left alternative first *)
| Star (a : re)                (* greedy [a*] *)
| WordBoundary.                (* [\b] *)

Definition Opt (a : re) : re := Alt a Eps.
Definition Plus (a : re) : re := Seq a (Star a).
Definition Chr (c : ascii) : re := Cls (Ascii.eqb c).

(** A literal; [ci] is the [i] flag. *)
Fixpoint Lit (ci : bool) (s : string) : re :=
  match s with
  | EmptyString => Eps
  | String c s' =>
      Seq (Cls (fun x => if ci then Ascii.eqb (lowerChar x) (lowerChar c) else Ascii.eqb x c))
          (Lit ci s')
  end.

Fixpoint AltOf (rs : list re) : re :=
  match rs with
  | [] => Cls (fun _ => false)
  | [r] => r
  | r :: rest => Alt r (AltOf rest)
  end.

Definition wordBefore (prev : option ascii) : bool :=
  match prev with Some c => isWord c | None => false end.
Definition wordAfter (s : list ascii) : bool :=
  match s with c :: _ => isWord c | [] => false end.

(** Backtracking matcher in continuation-passing style.  [prev] is the
    character before the current position, [s] the rest of the input and
    [k] what remains to be matched; the first success in priority order is
    returned, as by a JavaScript engine. *)
Fixpoint matchRe {R : Type} (r : re) (prev : option ascii) (s : list ascii)
    (k : option ascii -> list ascii -> option R) {struct r} : option R :=
  match r with
  | Eps => k prev s
  | Cls p =>
      match s with
      | c :: s' => if p c then k (Some c) s' else None
      | [] => None
      end
  | Seq a b => matchRe a prev s (fun prev' s' => matchRe b prev' s' k)
  | Alt a b =>
      match matchRe a prev s k with
      | Some x => Some x
      | None => matchRe b prev s k
      end
  | Star a =>
      (fix star (fuel : nat) (prev : option ascii) (s : list ascii) : option R :=
         let again :=
           match fuel with
           | O => None
           | S fuel' =>
               matchRe a prev s
                 (fun prev' s' =>
                    (* an iteration that consumes nothing is rejected *)
                    if (length s' <? length s)%nat then star fuel' prev' s' else None)
           end in
         match again with
         | Some x => Some x
         | None => k prev s
         end) (S (length s)) prev s
  | WordBoundary =>
      if xorb (wordBefore prev) (wordAfter s) then k prev s else None
  end.

(** The [while ((match = re.exec(text)) !== null)] loop of a global
    expression: the matched substrings from left to right, each search
    resuming where the previous match ended.  None of the expressions
    below can match the empty string (on which the loop of the source
    would not advance); the scan stops there. *)
Fixpoint execAll (fuel : nat) (r : re) (prev : option ascii) (s : list ascii) : list string :=
  match fuel with
  | O => []
  | S fuel' =>
      match matchRe r prev s (fun p rest => Some (p, rest)) with
      | Some (p, rest) =>
          let matched := firstn (length s - length rest) s in
          match matched with
          | [] => []
          | _ => string_of_list_ascii matched :: execAll fuel' r p rest
          end
      | None =>
          match s with
          | [] => []
          | c :: s' => execAll fuel' r (Some c) s'
          end
      end
  end.

Definition allMatches (r : re) (text : string) : list string :=
  let s := list_ascii_of_string text in
  execAll (S (length s)) r None s.

End Regex.

(** ** Entity recognition: [entityRecognition.js] *)

Module EntityRecognition.
Import Js Regex.

Record Entities := mkEntities {
  locations : list string;
  organizations : list string;
  dates : list string;
  currencies : list string;
  numbers : list string;
  topics : list string }.

(** [/\b([A-Z][a-z]+ (?:City|Country|State|Region|Island)?)\b/g]; the
    capture group spans the whole match. *)
Definition locationRegex : re :=
  Seq WordBoundary
    (Seq (Cls isUpper)
      (Seq (Plus (Cls isLower))
        (Seq (Chr " ")
          (Seq (Opt (AltOf (map (Lit false) ["City"; "Country"; "State"; "Region"; "Island"])))
               WordBoundary)))).

(** [/[$€£¥]\s*[\d,]+\.?\d*/g] *)
Definition currencyRegex : re :=
  Seq (AltOf (map (Lit false) ["$"; "€"; "£"; "¥"]))
    (Seq (Star (Cls isSpace))
      (Seq (Plus (Cls (fun c => isDigit c || Ascii.eqb c ",")))
        (Seq (Opt (Chr ".")) (Star (Cls isDigit))))).

(** [/\b\d+(?:\.\d+)?\b/g] *)
Definition numberRegex : re :=
  Seq WordBoundary
    (Seq (Plus (Cls isDigit))
      (Seq (Opt (Seq (Chr ".") (Plus (Cls isDigit)))) WordBoundary)).

Definition digit : re := Cls isDigit.
Definition dateSep : re := Cls (fun c => Ascii.eqb c "-" || Ascii.eqb c "/").

(** [/\b(?:January|...|December|\d{1,2}[-/]\d{1,2}[-/]\d{2,4})\b/gi] *)
Definition dateRegex : re :=
  Seq WordBoundary
    (Seq (AltOf
            (map (Lit true)
                 ["January"; "February"; "March"; "April"; "May"; "June"; "July";
                  "August"; "September"; "October"; "November"; "December"]
             ++ [Seq digit (Seq (Opt digit)
                  (Seq dateSep
                    (Seq digit (Seq (Opt digit)
                      (Seq dateSep
                        (Seq digit (Seq digit (Opt (Seq digit (Opt digit))))))))))]))
         WordBoundary).

(** [if (!arr.includes(m)) arr.push(m)] over the matches, in order. *)
Definition collect (ms : list string) : list string :=
  fold_left (fun arr m => if arrayIncludes arr m then arr else arr ++ [m]) ms [].

Definition extractEntities (text : string) : Entities :=
  {| locations := collect (allMatches locationRegex text);
     organizations := [];
     dates := collect (allMatches dateRegex text);
     currencies := collect (allMatches currencyRegex text);
     numbers := collect (allMatches numberRegex text);
     topics := [] |}.

Definition countOf (xs : list string) : Q := inject_Z (Z.of_nat (length xs)).

(** [scoreConfidenceByEntities(entities)], in exact arithmetic; the sums of
    the source are floating-point sums and differ from these values by
    rounding (0.9500000000000002 for 0.95). *)
Definition scoreConfidenceByEntities (entities : Entities) : Q :=
  let score := (5 # 10)%Q in
  let entityCount :=
    (countOf (locations entities) + countOf (organizations entities)
     + countOf (dates entities) + countOf (currencies entities)
     + countOf (numbers entities) + countOf (topics entities))%Q in
  let score := (score + Qmin (entityCount * (5 # 100)) (3 # 10))%Q in
  let score := if (0 <? length (locations entities))%nat then (score + (5 # 100))%Q else score in
  let score := if (0 <? length (dates entities))%nat then (score + (5 # 100))%Q else score in
  let score := if (0 <? length (currencies entities))%nat then (score + (5 # 100))%Q else score in
  Qmin score 1.

End EntityRecognition.

(** ** Statistical classifier: [intentModel.js] *)

Module IntentModel.
Import Js.

Record Example := mkExample { text : string; intent : string; type : option string }.

Definition TRAINING_DATA : list Example :=
  [ mkExample "what is the weather" "realtime" (Some "weather");
    mkExample "weather forecast" "realtime" (Some "weather");
    mkExample "is it raining" "realtime" (Some "weather");
    mkExample "temperature today" "realtime" (Some "weather");
    mkExample "will it snow" "realtime" (Some "weather");
    mkExample "how hot is it" "realtime" (Some "weather");
    mkExample "latest news" "realtime" (Some "news");
    mkExample "breaking news today" "realtime" (Some "news");
    mkExample "what is trending" "realtime" (Some "news");
    mkExample "current events" "realtime" (Some "news");
    mkExample "headlines" "realtime" (Some "news");
    mkExample "exchange rate" "realtime" (Some "currency");
    mkExample "usd to eur" "realtime" (Some "currency");
    mkExample "bitcoin price" "realtime" (Some "currency");
    mkExample "convert currency" "realtime" (Some "currency");
    mkExample "explain artificial intelligence" "rag" None;
    mkExample "tell me about machine learning" "rag" None;
    mkExample "what is data science" "rag" None;
    mkExample "define blockchain" "rag" None;
    mkExample "how does deep learning work" "rag" None;
    mkExample "hello" "general" None;
    mkExample "hi there" "general" None;
    mkExample "thanks for your help" "general" None;
    mkExample "can you help me" "general" None ].

(** A dictionary object whose keys are iterated in insertion order. *)
Definition Dict (A : Type) := list (string * A).

Fixpoint dictGet {A} (d : Dict A) (k : string) : option A :=
  match d with
  | [] => None
  | (k', v) :: rest => if String.eqb k' k then Some v else dictGet rest k
  end.

Fixpoint dictSet {A} (d : Dict A) (k : string) (v : A) : Dict A :=
  match d with
  | [] => [(k, v)]
  | (k', v') :: rest => if String.eqb k' k then (k', v) :: rest else (k', v') :: dictSet rest k v
  end.

Record Classifier := mkClassifier {
  vocabulary : list string;               (* a [Set]: no duplicates *)
  classPrior : Dict Q;
  classWordProb : Dict (gmap string Q);
  isTrained : bool }.

Definition constructor : Classifier := mkClassifier [] [] [] false.

(** [cleaned.split(/\s+/).filter(w => w.length > 0)]: the maximal runs of
    non-space characters. *)
Fixpoint splitWords (s : list ascii) (word : list ascii) : list string :=
  let flush rest := match word with [] => rest | _ => string_of_list_ascii (rev word) :: rest end in
  match s with
  | [] => flush []
  | c :: s' => if isSpace c then flush (splitWords s' []) else splitWords s' (c :: word)
  end.

Fixpoint bigrams (words : list string) : list string :=
  match words with
  | w1 :: ((w2 :: _) as rest) => String.append w1 (String.append "_" w2) :: bigrams rest
  | _ => []
  end.

(** [extractFeatures(text)]: unigrams, then bigrams. *)
Definition extractFeatures (text : string) : list string :=
  let cleaned :=
    List.filter (fun c => orb (isWord c) (isSpace c))
                (list_ascii_of_string (toLowerCase text)) in
  let words := splitWords cleaned [] in
  words ++ bigrams words.

Definition setAdd (s : list string) (x : string) : list string :=
  if arrayIncludes s x then s else s ++ [x].

(** Examples grouped by label, labels in order of first appearance. *)
Definition groupByIntent (trainingData : list Example) : Dict (list string) :=
  fold_left
    (fun classExamples example =>
       let sofar := match dictGet classExamples (intent example) with
                    | Some xs => xs | None => [] end in
       dictSet classExamples (intent example) (sofar ++ [text example]))
    trainingData [].

Definition ofNat (n : nat) : Q := inject_Z (Z.of_nat n).

(** [train(trainingData)].  The training texts contain no token named
    after a property of [Object.prototype], so every frequency is a
    number.  The vocabulary grows while the classes are processed, and each
    class is smoothed with the size it has at that moment. *)
Definition train (c : Classifier) (trainingData : list Example) : Classifier :=
  let classExamples := groupByIntent trainingData in
  let totalExamples := length trainingData in
  let priors :=
    fold_left
      (fun pr '(className, examples) =>
         dictSet pr className (ofNat (length examples) / ofNat totalExamples)%Q)
      classExamples (classPrior c) in
  let '(vocab, probs) :=
    fold_left
      (fun '(vocab, probs) '(className, examples) =>
         let allText := join " " examples in
         let features := extractFeatures allText in
         let featureFreq : gmap string nat :=
           fold_left (fun m f => <[f := (default 0 (m !! f) + 1)%nat]> m) features ∅ in
         let vocab := fold_left setAdd features vocab in
         let totalFeatures := length features in
         let table : gmap string Q :=
           (fun n : nat => (ofNat (n + 1) / ofNat (totalFeatures + length vocab))%Q)
             <$> featureFreq in
         (vocab, dictSet probs className table))
      classExamples (vocabulary c, classWordProb c) in
  mkClassifier vocab priors probs true.

(** A score of [predict]: a sum of logarithms [Math.log(p1) + ... +
    Math.log(pn)] is kept as [Ln (p1 * ... * pn)], so that scores are
    compared exactly ([Math.log] is strictly increasing).  [NegInf] and
    [PosInf] are the two infinities, [LNaN] is [NaN]. *)
Inductive lognum := NegInf | Ln (p : Q) | PosInf | LNaN.

(** [score += Math.log(prob)] for a probability [prob > 0]; [None] is a
    [prob] that is not a number. *)
Definition addLog (score : lognum) (prob : option Q) : lognum :=
  match score, prob with
  | Ln s, Some p => Ln (s * p)
  | LNaN, _ | _, None => LNaN
  | inf, Some _ => inf
  end.

(** [a > b] *)
Definition gt (a b : lognum) : bool :=
  match a, b with
  | LNaN, _ | _, LNaN => false
  | NegInf, _ => false
  | _, PosInf => false
  | Ln x, Ln y => negb (Qle_bool x y)
  | Ln _, NegInf | PosInf, NegInf | PosInf, Ln _ => true
  end.

(** [a === b] *)
Definition strictEq (a b : lognum) : bool :=
  match a, b with
  | Ln x, Ln y => Qeq_bool x y
  | NegInf, NegInf | PosInf, PosInf => true
  | _, _ => false
  end.

Definition isNaN (a : lognum) : bool := match a with LNaN => true | _ => false end.

(** [Math.max(...xs)] and [Math.min(...xs)]: [NaN] as soon as one argument
    is, the neutral infinity for no argument. *)
Definition mathMax (xs : list lognum) : lognum :=
  if existsb isNaN xs then LNaN
  else fold_left (fun m x => if gt x m then x else m) xs NegInf.
Definition mathMin (xs : list lognum) : lognum :=
  if existsb isNaN xs then LNaN
  else fold_left (fun m x => if gt m x then x else m) xs PosInf.

(** [(bestScore - minScore) / (maxScore - minScore)] when [minScore !==
    maxScore].  On logarithms the quotient is [1] when [bestScore] is
    [maxScore] and [0] when it is [minScore]; no other quotient of finite
    scores is rational, and none arises, because [bestScore] is the running
    maximum of the values [maxScore] is the maximum of (lemma
    [bestScore_is_maxScore]).  With an infinite or undefined operand the
    quotient is [NaN]. *)
Definition quotient (bestScore minScore maxScore : lognum) : num :=
  match bestScore, minScore, maxScore with
  | Ln b, Ln m, Ln M =>
      if Qeq_bool b M then Fin 1
      else if Qeq_bool b m then Fin 0
      else NaN
  | _, _, _ => NaN
  end.

Record Prediction := mkPrediction {
  p_intent : option string;      (* [bestClass], [null] if no score beat -Infinity *)
  p_confidence : num;
  p_scores : Dict lognum }.

(** Own lower-case property names every plain object inherits; looking one
    up in a probability table yields a function or an object, which
    [Math.log] turns into [NaN]. *)
Definition inheritedKey (feature : string) : bool :=
  orb (String.eqb feature "constructor") (String.eqb feature "__proto__").

(** [this.classWordProb[className][feature] || 1 / (1 + this.vocabulary.size)].
    [train] gives every class of [classPrior] its table, so the outer
    lookup succeeds on every classifier [train] produces. *)
Definition featureProb (c : Classifier) (className feature : string) : option Q :=
  match dictGet (classWordProb c) className with
  | Some table =>
      match table !! feature with
      | Some p => Some p
      | None =>
          if inheritedKey feature then None
          else Some (1 / (1 + ofNat (length (vocabulary c))))%Q
      end
  | None => None
  end.

(** The [forEach] that selects [bestClass] and [bestScore]. *)
Definition argmax (scores : Dict lognum) : option string * lognum :=
  fold_left
    (fun '(bestClass, bestScore) '(className, score) =>
       if gt score bestScore then (Some className, score) else (bestClass, bestScore))
    scores (None, NegInf).

(** [predict(text)] *)
Definition predict (c : Classifier) (text : string) : completion Prediction :=
  if negb (isTrained c) then Throw (GenericError "Model not trained")
  else
    let features := extractFeatures text in
    let scores : Dict lognum :=
      map (fun '(className, prior) =>
             (className,
              fold_left (fun s feature => addLog s (featureProb c className feature))
                        features (Ln prior)))
          (classPrior c) in
    let '(bestClass, bestScore) := argmax scores in
    let allScores := map snd scores in
    let maxScore := mathMax allScores in
    let minScore := mathMin allScores in
    let confidence :=
      if strictEq minScore maxScore then Fin (5 # 10)
      else quotient bestScore minScore maxScore in
    Normal (mkPrediction bestClass confidence scores).

(** The module-level classifier, trained once at load time. *)
Definition mlClassifier : Classifier := train constructor TRAINING_DATA.

(** The per-category keyword counts of the rule-based path. *)
Record RuleScores := mkScores { s_realtime : Z; s_rag : Z; s_general : Z }.

Inductive Scores := FromRules (s : RuleScores) | FromModel (s : Dict lognum).

(** The classification object.  The rule-based path fills [intent],
    [confidence], [scores] and possibly [type]; [predictIntentML] adds
    [method] and [mlConfidence] or [error]; [detectIntent] adds
    [entities]. *)
Record IntentResult := mkIntent {
  r_intent : option string;
  r_confidence : num;
  r_scores : Scores;
  r_type : option string;
  r_method : option string;
  r_mlConfidence : option num;
  r_error : option string;
  r_entities : option EntityRecognition.Entities }.

(** [predictIntentML(message, ruleBased)] on a given classifier. *)
Definition predictIntentMLWith (c : Classifier) (message : string) (ruleBased : IntentResult)
    : IntentResult :=
  match predict c message with
  | Normal mlResult =>
      if num_lt (p_confidence mlResult) (Fin (6 # 10))
      then mkIntent (r_intent ruleBased) (r_confidence ruleBased) (r_scores ruleBased)
                    (r_type ruleBased) (Some "rule-based") (Some (p_confidence mlResult))
                    (r_error ruleBased) (r_entities ruleBased)
      else mkIntent (p_intent mlResult) (p_confidence mlResult) (FromModel (p_scores mlResult))
                    None (Some "ml") None None None
  | Throw err =>
      mkIntent (r_intent ruleBased) (r_confidence ruleBased) (r_scores ruleBased)
               (r_type ruleBased) (Some "rule-based") (r_mlConfidence ruleBased)
               (Some "ML prediction failed") (r_entities ruleBased)
  end.

Definition predictIntentML : string -> IntentResult -> IntentResult :=
  predictIntentMLWith mlClassifier.

End IntentModel.

(** ** Intent detection: [intentDetector.js] *)

Module IntentDetector.
Import Js IntentModel.

Record Pattern := mkPattern { keywords : list string; p_type : string }.

(** [INTENT_PATTERNS], in the order of [Object.entries]. *)
Definition INTENT_PATTERNS : list (string * Pattern) :=
  [ ("weather",
     mkPattern ["weather"; "temperature"; "rain"; "snow"; "sunny"; "cloudy"; "forecast";
                "celsius"; "fahrenheit"] "weather");
    ("news",
     mkPattern ["news"; "headlines"; "latest"; "breaking"; "today"; "current events";
                "happening"] "news");
    ("currency",
     mkPattern ["exchange"; "rate"; "currency"; "convert"; "dollar"; "euro"; "pound";
                "price"; "forex"] "currency");
    ("time",
     mkPattern ["time"; "what time"; "current time"; "now"; "o'clock"] "time") ].

Definition ragKeywords : list string :=
  ["explain"; "tell me"; "what is"; "how does"; "describe"; "definition"; "concept";
   "learn"; "understand"; "about"].

Definition generalKeywords : list string :=
  ["hi"; "hello"; "thanks"; "help"; "please"; "can you"; "would you"; "could you"].

(** [kws.filter((keyword) => messageLower.includes(keyword)).length] *)
Definition matchCount (messageLower : string) (kws : list string) : Z :=
  Z.of_nat (length (List.filter (includes messageLower) kws)).

(** [message._detectedType], read from a string primitive: the property is
    looked up on [String.prototype], which does not have it. *)
Definition readDetectedType (message : string) : option string := None.

(** [message._detectedType = v].  The file is an ES module, hence strict-mode
    code, where creating a property on a primitive raises [TypeError]. *)
Definition writeDetectedType (message v : string) : completion unit :=
  Throw (TypeError "Cannot create property '_detectedType' on string").

(** The loop over [Object.entries(INTENT_PATTERNS)]; the accumulator is
    [scores.realtime]. *)
Fixpoint scanPatterns (message messageLower : string) (patterns : list (string * Pattern))
    (realtimeScore : Z) : completion Z :=
  match patterns with
  | [] => Normal realtimeScore
  | (key, pattern) :: rest =>
      let count := matchCount messageLower (keywords pattern) in
      if 0 <? count then
        let realtimeScore := realtimeScore + count in
        match readDetectedType message with
        | None =>
            bind (writeDetectedType message (p_type pattern))
                 (fun _ => scanPatterns message messageLower rest realtimeScore)
        | Some _ => scanPatterns message messageLower rest realtimeScore
        end
      else scanPatterns message messageLower rest realtimeScore
  end.

(** The choice of [dominantIntent] from the three scores. *)
Definition dominantIntent (scores : RuleScores) : string :=
  let maxScore := Z.max (s_realtime scores) (Z.max (s_rag scores) (s_general scores)) in
  if ((s_realtime scores =? maxScore) && (0 <? s_realtime scores))%bool then "realtime"
  else if ((s_rag scores =? maxScore) && (0 <? s_rag scores))%bool then "rag"
  else "general".

(** The final loop: the type of the first pattern with a matching keyword. *)
Definition firstType (messageLower : string) : option string :=
  p_type <$> List.find (fun pattern => existsb (includes messageLower) (keywords pattern))
                       (map snd INTENT_PATTERNS).

Definition detectIntentRuleBased (message : string) : completion IntentResult :=
  let messageLower := toLowerCase message in
  bind (scanPatterns message messageLower INTENT_PATTERNS 0) (fun realtimeScore =>
  let ragMatches := matchCount messageLower ragKeywords in
  let generalMatches := matchCount messageLower generalKeywords in
  let scores := mkScores realtimeScore (0 + ragMatches) (0 + generalMatches) in
  let maxScore := Z.max (s_realtime scores) (Z.max (s_rag scores) (s_general scores)) in
  let dominant := dominantIntent scores in
  let confidence :=
    if 0 <? maxScore then Qmin (inject_Z maxScore / 3) 1 else 0%Q in
  let type := if String.eqb dominant "realtime" then firstType messageLower else None in
  Normal (mkIntent (Some dominant) (Fin confidence) (FromRules scores) type
                   None None None None)).

Definition detectIntent (message : string) : completion IntentResult :=
  let entities := EntityRecognition.extractEntities message in
  let entityScore := EntityRecognition.scoreConfidenceByEntities entities in
  bind (detectIntentRuleBased message) (fun ruleBased =>
  let result := predictIntentML message ruleBased in
  Normal (mkIntent (r_intent result)
                   (num_add (num_mul (r_confidence result) (Fin (7 # 10)))
                            (Fin (entityScore * (3 # 10))))
                   (r_scores result) (r_type result) (r_method result)
                   (r_mlConfidence result) (r_error result) (Some entities))).

End IntentDetector.

(** ** Usage metrics: [analytics.js] *)

Module Analytics.

(** [queriesBySource]: the three counters the constructor creates. *)
Record SourceCounts := mkCounts { c_realtime : Z; c_rag : Z; c_llm : Z }.

Record Metrics := mkMetrics {
  totalQueries : Z;
  queriesBySource : SourceCounts;
  cacheHits : Z;
  cacheMisses : Z;
  totalPDFsUploaded : Z;
  totalPDFsProcessed : Z;
  averageResponseTime : Z;
  errorCount : Z;
  responseTimes : list Z;
  startTime : Z }.

(** The constructor, and [reset()]; [now] is the [new Date()] of
    [startTime]. *)
Definition constructor (now : Z) : Metrics :=
  mkMetrics 0 (mkCounts 0 0 0) 0 0 0 0 0 0 [] now.

Definition reset (m : Metrics) (now : Z) : Metrics := constructor now.

(** [if (queriesBySource[source]) queriesBySource[source]++]: a counter is
    incremented only when it is truthy, that is not 0.  A [source] other than
    the three keys never aliases one of the three counters. *)
Definition countSource (counts : SourceCounts) (source : string) : SourceCounts :=
  let inc (n : Z) := if n =? 0 then n else n + 1 in
  if String.eqb source "realtime"
  then mkCounts (inc (c_realtime counts)) (c_rag counts) (c_llm counts)
  else if String.eqb source "rag"
  then mkCounts (c_realtime counts) (inc (c_rag counts)) (c_llm counts)
  else if String.eqb source "llm"
  then mkCounts (c_realtime counts) (c_rag counts) (inc (c_llm counts))
  else counts.

(** [Math.round(sum / n)] for integers [sum] and [n > 0]: the quotient
    rounded to the nearest integer, halves upwards. *)
Definition roundedMean (sum n : Z) : Z := (2 * sum + n) / (2 * n).

Definition sumOf (xs : list Z) : Z := fold_left Z.add xs 0.

(** [updateAverageResponseTime()] *)
Definition updateAverageResponseTime (m : Metrics) : Metrics :=
  match responseTimes m with
  | [] => m
  | ts =>
      mkMetrics (totalQueries m) (queriesBySource m) (cacheHits m) (cacheMisses m)
                (totalPDFsUploaded m) (totalPDFsProcessed m)
                (roundedMean (sumOf ts) (Z.of_nat (length ts)))
                (errorCount m) ts (startTime m)
  end.

(** [recordQuery(source, responseTime)] *)
Definition recordQuery (m : Metrics) (source : string) (responseTime : Z) : Metrics :=
  let times := responseTimes m ++ [responseTime] in
  (* keep only the last 100: [shift()] drops the oldest *)
  let times := if (100 <? length times)%nat then tail times else times in
  updateAverageResponseTime
    (mkMetrics (totalQueries m + 1) (countSource (queriesBySource m) source)
               (cacheHits m) (cacheMisses m) (totalPDFsUploaded m) (totalPDFsProcessed m)
               (averageResponseTime m) (errorCount m) times (startTime m)).

(** [recordCacheEvent(isHit)]; [isHit] is the truthiness of the argument. *)
Definition recordCacheEvent (m : Metrics) (isHit : bool) : Metrics :=
  mkMetrics (totalQueries m) (queriesBySource m)
            (if isHit then cacheHits m + 1 else cacheHits m)
            (if isHit then cacheMisses m else cacheMisses m + 1)
            (totalPDFsUploaded m) (totalPDFsProcessed m) (averageResponseTime m)
            (errorCount m) (responseTimes m) (startTime m).

(** [recordError()] *)
Definition recordError (m : Metrics) : Metrics :=
  mkMetrics (totalQueries m) (queriesBySource m) (cacheHits m) (cacheMisses m)
            (totalPDFsUploaded m) (totalPDFsProcessed m) (averageResponseTime m)
            (errorCount m + 1) (responseTimes m) (startTime m).

(** A run of [recordQuery] calls. *)
Definition recordQueries (m : Metrics) (calls : list (string * Z)) : Metrics :=
  fold_left (fun m '(source, responseTime) => recordQuery m source responseTime) calls m.

End Analytics.

(** ** Alerts: [alerts.js] *)

Module AlertManager.

Inductive AlertType := api_failure | cache_ttl_expiry | queue_error.
Inductive Severity := info | warning | critical.

(** An alert.  [a_id] is the [Date.now()] of [`alert_${Date.now()}`],
    [timestamp] the instant of [new Date().toISOString()]; [subject] is
    [apiName], [key] or [jobId]; [detail] is the error text, if any;
    [ttlSeconds] and [count] are present on the alerts that have them. *)
Record Alert := mkAlert {
  a_id : Z;
  a_type : AlertType;
  severity : Severity;
  subject : string;
  detail : option string;
  ttlSeconds : option Z;
  timestamp : Z;
  count : option Z }.

Record Counters := mkCounters { apiFailures : Z; cacheFailures : Z; queueErrors : Z }.

Record State := mkState { alerts : list Alert; counters : Counters }.

(** [alertConfig] *)
Definition apiFailureThreshold : Z := 5.
Definition cacheFailureThreshold : Z := 10.
Definition queueErrorThreshold : Z := 3.
Definition alertRetentionMs : Z := 24 * 60 * 60 * 1000.

Definition constructor : State := mkState [] (mkCounters 0 0 0).

(** The three clock reads of a [record...] call: for the id, for the
    timestamp, and inside [cleanupOldAlerts]. *)
Record Clock := mkClock { atId : Z; atStamp : Z; atCleanup : Z }.

(** [cleanupOldAlerts()] *)
Definition cleanupOldAlerts (st : State) (now : Z) : State :=
  let cutoff := now - alertRetentionMs in
  mkState (List.filter (fun a => timestamp a >? cutoff) (alerts st)) (counters st).

(** [recordAPIFailure(apiName, error)]: the alert returned and the state. *)
Definition recordAPIFailure (st : State) (apiName error : string) (clk : Clock)
    : Alert * State :=
  let n := apiFailures (counters st) + 1 in
  let cs := mkCounters n (cacheFailures (counters st)) (queueErrors (counters st)) in
  let sev := if apiFailureThreshold <=? n then critical else warning in
  let alert := mkAlert (atId clk) api_failure sev apiName (Some error) None
                       (atStamp clk) (Some n) in
  (alert, cleanupOldAlerts (mkState (alerts st ++ [alert]) cs) (atCleanup clk)).

(** [recordCacheTTLExpiry(key, ttl)] *)
Definition recordCacheTTLExpiry (st : State) (key : string) (ttl : Z) (clk : Clock)
    : Alert * State :=
  let alert := mkAlert (atId clk) cache_ttl_expiry info key None (Some ttl)
                       (atStamp clk) None in
  (alert, cleanupOldAlerts (mkState (alerts st ++ [alert]) (counters st)) (atCleanup clk)).

(** [recordQueueError(jobId, error)] *)
Definition recordQueueError (st : State) (jobId error : string) (clk : Clock)
    : Alert * State :=
  let n := queueErrors (counters st) + 1 in
  let cs := mkCounters (apiFailures (counters st)) (cacheFailures (counters st)) n in
  let sev := if queueErrorThreshold <=? n then critical else warning in
  let alert := mkAlert (atId clk) queue_error sev jobId (Some error) None
                       (atStamp clk) (Some n) in
  (alert, cleanupOldAlerts (mkState (alerts st ++ [alert]) cs) (atCleanup clk)).

(** [xs.slice(start)] for an integer [start]: a negative [start] counts from
    the end. *)
Definition sliceFrom {A} (xs : list A) (start : Z) : list A :=
  let len := Z.of_nat (length xs) in
  let from := if start <? 0 then Z.max (len + start) 0 else Z.min start len in
  skipn (Z.to_nat from) xs.

(** [getRecentAlerts(limit)]: [alerts.slice(-limit).reverse()]. *)
Definition getRecentAlerts (st : State) (limit : Z) : list Alert :=
  rev (sliceFrom (alerts st) (- limit)).

Definition isCritical (a : Alert) : bool :=
  match severity a with critical => true | _ => false end.

(** [getCriticalAlerts()] *)
Definition getCriticalAlerts (st : State) : list Alert :=
  sliceFrom (List.filter isCritical (alerts st)) (- 20).

(** [clearAlerts()] *)
Definition clearAlerts (st : State) : State := constructor.

(** A run of [recordAPIFailure] calls, with the alerts they return. *)
Fixpoint recordAPIFailures (st : State) (calls : list (string * string * Clock))
    : list Alert * State :=
  match calls with
  | [] => ([], st)
  | (apiName, error, clk) :: rest =>
      let '(a, st1) := recordAPIFailure st apiName error clk in
      let '(more, st2) := recordAPIFailures st1 rest in
      (a :: more, st2)
  end.

End AlertManager.

(** ** Sessions: [sessionManager.js] *)

Module SessionManager.

Definition Metadata := list (string * string).

Record Document := mkDocument {
  documentId : string;
  addedAt : Z;
  d_metadata : Metadata }.

Record Session := mkSession {
  sessionId : string;
  userId : string;
  createdAt : Z;
  lastActivity : Z;
  documents : list Document }.

(** The module-level [sessions] map. *)
Definition Sessions := gmap string Session.

(** The clock reads of [createSession]: [Date.now()] for a generated user
    id, then the two [new Date()]. *)
Record Clock := mkClock { atUser : Z; atCreated : Z; atActivity : Z }.

(** [userId || `user_${Date.now()}`]: [null] and the empty string are
    falsy. *)
Definition userIdOr (userId : option string) (now : Z) : string :=
  match userId with
  | Some u => if String.eqb u "" then String.append "user_" (pretty now) else u
  | None => String.append "user_" (pretty now)
  end.

(** [createSession(userId)]; [sid] is the identifier [uuidv4()] returns. *)
Definition createSession (sessions : gmap string Session) (userId : option string)
    (sid : string) (clk : Clock) : string * gmap string Session :=
  let session := mkSession sid (userIdOr userId (atUser clk)) (atCreated clk) (atActivity clk) [] in
  (sid, <[sid := session]> sessions).

(** [getSession(sessionId)]: a found session has its [lastActivity] set to
    the current instant. *)
Definition getSession (sessions : gmap string Session) (sid : string) (now : Z)
    : option Session * gmap string Session :=
  match sessions !! sid with
  | Some session =>
      let session := mkSession (sessionId session) (userId session) (createdAt session)
                               now (documents session) in
      (Some session, <[sid := session]> sessions)
  | None => (None, sessions)
  end.

(** [addDocument(sessionId, documentId, metadata)]; [now] is the clock read
    of [getSession], [now'] that of [addedAt]. *)
Definition addDocument (sessions : gmap string Session) (sid docId : string)
    (metadata : Metadata) (now now' : Z) : option Session * gmap string Session :=
  match getSession sessions sid now with
  | (Some session, sessions1) =>
      let session := mkSession (sessionId session) (userId session) (createdAt session)
                               (lastActivity session)
                               (documents session ++ [mkDocument docId now' metadata]) in
      (Some session, <[sid := session]> sessions1)
  | (None, sessions1) => (None, sessions1)
  end.

(** [getUserDocuments(sessionId)] *)
Definition getUserDocuments (sessions : gmap string Session) (sid : string) (now : Z)
    : list Document * gmap string Session :=
  match getSession sessions sid now with
  | (Some session, sessions1) => (documents session, sessions1)
  | (None, sessions1) => ([], sessions1)
  end.

(** [verifyDocumentAccess(sessionId, documentId)] *)
Definition verifyDocumentAccess (sessions : gmap string Session) (sid docId : string) (now : Z)
    : bool * gmap string Session :=
  match getSession sessions sid now with
  | (Some session, sessions1) =>
      (existsb (fun doc => String.eqb (documentId doc) docId) (documents session), sessions1)
  | (None, sessions1) => (false, sessions1)
  end.

(** [deleteSession(sessionId)] *)
Definition deleteSession (sessions : gmap string Session) (sid : string) : gmap string Session :=
  match sessions !! sid with
  | Some _ => delete sid sessions
  | None => sessions
  end.

Definition maxAge : Z := 24 * 60 * 60 * 1000.

(** [cleanupExpiredSessions()]: the number of sessions removed and the map
    afterwards. *)
Definition cleanupExpiredSessions (sessions : gmap string Session) (now : Z)
    : Z * gmap string Session :=
  let kept := filter (fun ks => ¬ (now - lastActivity ks.2 > maxAge)) sessions in
  (Z.of_nat (size sessions) - Z.of_nat (size kept), kept).

End SessionManager.

(** ** Response ranking: [responseRanker.js] *)

Module ResponseRanker.
Import Js EntityRecognition.

(** A response to rank: the fields [rankResponses] reads. *)
Record Response := mkResponse {
  source : string;
  content : string;
  confidence : option Q }.

(** [{ ...response, rankScore }] *)
Record Ranked := mkRanked { response : Response; rankScore : Q }.

(** The six keys of an entity object, in the order of [Object.keys]. *)
Definition entityLists (e : Entities) : list (list string) :=
  [locations e; organizations e; dates e; currencies e; numbers e; topics e].

(** One step of the [reduce]: the query entities of a type that occur, case
    ignored, inside some response entity of the same type. *)
Definition matchCountOf (queryEntitiesForType responseEntitiesForType : list string) : Z :=
  Z.of_nat (length (List.filter
    (fun e => existsb (fun re => includes (toLowerCase re) (toLowerCase e))
                      responseEntitiesForType)
    queryEntitiesForType)).

Definition entityMatches (queryEntities responseEntities : Entities) : Z :=
  fold_left Z.add
    (map (fun '(q, r) => matchCountOf q r)
         (combine (entityLists queryEntities) (entityLists responseEntities)))
    0.

(** The score of one response, before the cap, in exact arithmetic; the
    sums of the source are floating-point sums and differ from these values
    by rounding.  [content.length] is the length in bytes, its value for
    ASCII content. *)
Definition scoreOf (queryEntities : Entities) (intent : string) (r : Response) : Q :=
  let score := 0%Q in
  let score := (score + ResponseMerger.orDefault (confidence r) (5 # 10) * (4 # 10))%Q in
  let responseEntities := extractEntities (content r) in
  let score :=
    (score + Qmin (inject_Z (entityMatches queryEntities responseEntities) * (15 # 100))
                  (3 # 10))%Q in
  let contentLength := String.length (content r) in
  let score :=
    if ((100 <? contentLength) && (contentLength <? 2000))%nat then (score + (2 # 10))%Q
    else score in
  let score :=
    if (String.eqb (source r) "realtime" && String.eqb intent "realtime")%bool
    then (score + (1 # 10))%Q else score in
  let score :=
    if (String.eqb (source r) "pdf" && String.eqb intent "rag")%bool
    then (score + (1 # 10))%Q else score in
  let score :=
    if (String.eqb (source r) "rag" && String.eqb intent "rag")%bool
    then (score + (5 # 100))%Q else score in
  score.

(** [.sort((a, b) => b.rankScore - a.rankScore)]: descending, and stable as
    [Array.prototype.sort] is; written as an insertion sort from the right. *)
Fixpoint insertRanked (x : Ranked) (sorted : list Ranked) : list Ranked :=
  match sorted with
  | [] => [x]
  | y :: rest =>
      if Qle_bool (rankScore y) (rankScore x) then x :: y :: rest
      else y :: insertRanked x rest
  end.

Definition sortByRank (xs : list Ranked) : list Ranked := fold_right insertRanked [] xs.

(** [rankResponses(responses, query, intent)] *)
Definition rankResponses (responses : list Response) (query intent : string) : list Ranked :=
  let queryEntities := extractEntities query in
  sortByRank
    (map (fun r => mkRanked r (Qmin (scoreOf queryEntities intent r) 1)) responses).

(** [getTopRankedResponse(responses)] *)
Definition getTopRankedResponse (responses : list Response) : option Ranked :=
  match responses with
  | [] => None
  | _ =>
      match rankResponses responses "" "general" with
      | topResponse :: _ =>
          if negb (Qle_bool (3 # 10) (rankScore topResponse)) then None else Some topResponse
      | [] => None
      end
  end.

End ResponseRanker.

(** ** Live data with caching: [realtime.js] *)

Module Realtime.
Import Js.

Record Location := mkLocation {
  name : string; country : string; latitude : Q; longitude : Q }.

(** [weatherResponse.data.current] *)
Record Current := mkCurrent {
  temperature_2m : Q; relative_humidity_2m : Q; c_weather_code : Z }.

Record WeatherData := mkWeather {
  city : string;
  temperature : Q;
  humidity : Q;
  weather_code : Z;
  w_timestamp : Z;
  w_cached : bool }.

Record RatesData := mkRates {
  base : string;
  rates : list (string * Q);
  r_timestamp : Z;
  r_cached : bool }.

(** What the shared [cacheManager] holds under the keys of this module. *)
Inductive Cached := WeatherEntry (w : WeatherData) | RatesEntry (r : RatesData).

(** What a fetch returns: the data, or [{ error }]. *)
Inductive Outcome := Got (v : Cached) | Failed (error : string).

(** The geocoding request: it fails, or answers with [data.results], which
    may be missing. *)
Inductive GeoReply := GeoFailed | GeoAnswer (results : option (list Location)).

(** The clock reads of a fetch: in [cacheManager.get], for the timestamp,
    and in [cacheManager.set]. *)
Record Clock := mkClock { atGet : Z; atStamp : Z; atSet : Z }.

Definition Cache := gmap string (CacheManager.Entry Cached).

(** [fetchWeather(city)] against the two upstream requests [geocode] and
    [forecast] ([None]: the request or the reading of its answer raises). *)
Definition fetchWeather (cache : gmap string (CacheManager.Entry Cached)) (city : string)
    (geocode : string -> GeoReply) (forecast : Location -> option Current) (clk : Clock)
    : Outcome * gmap string (CacheManager.Entry Cached) :=
  let cacheKey := String.append "weather_" (toLowerCase city) in
  match CacheManager.get cache cacheKey (atGet clk) with
  | (Some cachedWeather, cache1) => (Got cachedWeather, cache1)
  | (None, cache1) =>
      match geocode city with
      | GeoFailed => (Failed "Failed to fetch weather data", cache1)
      | GeoAnswer None | GeoAnswer (Some []) =>
          (Failed (String.append "City '" (String.append city "' not found")), cache1)
      | GeoAnswer (Some (location :: _)) =>
          match forecast location with
          | None => (Failed "Failed to fetch weather data", cache1)
          | Some weather =>
              let weatherData :=
                mkWeather (String.append (name location) (String.append ", " (country location)))
                          (temperature_2m weather) (relative_humidity_2m weather)
                          (c_weather_code weather) (atStamp clk) false in
              (Got (WeatherEntry weatherData),
               CacheManager.set cache1 cacheKey (WeatherEntry weatherData) 1800 (atSet clk))
          end
      end
  end.

(** [fetchExchangeRates(baseCurrency)] against the upstream request
    [latest], which answers with [data.base] and [data.rates] or fails. *)
Definition fetchExchangeRates (cache : gmap string (CacheManager.Entry Cached))
    (baseCurrency : string) (latest : string -> option (string * list (string * Q)))
    (clk : Clock) : Outcome * gmap string (CacheManager.Entry Cached) :=
  let cacheKey := String.append "currency_" baseCurrency in
  match CacheManager.get cache cacheKey (atGet clk) with
  | (Some cachedRates, cache1) => (Got cachedRates, cache1)
  | (None, cache1) =>
      match latest baseCurrency with
      | None => (Failed "Failed to fetch exchange rates", cache1)
      | Some (b, rs) =>
          let ratesData := mkRates b rs (atStamp clk) false in
          (Got (RatesEntry ratesData),
           CacheManager.set cache1 cacheKey (RatesEntry ratesData) 21600 (atSet clk))
      end
  end.

(** Sample upstream answers used below. *)
Definition geoParis : string -> GeoReply :=
  fun _ => GeoAnswer (Some [mkLocation "Paris" "France" (4885 # 100) (235 # 100)]).

Definition forecastMild : Location -> option Current :=
  fun _ => Some (mkCurrent 18 (60 # 1) 1).

Definition parisWeather : WeatherData := mkWeather "Paris, France" 18 (60 # 1) 1 1 false.

Definition latestUsd : string -> option (string * list (string * Q)) :=
  fun _ => Some ("USD", [("EUR", (9 # 10)%Q)]).

End Realtime.

(** * Properties *)

Section RateLimiterFacts.
Import RateLimiter.

Lemma resolve_session : resolve "session" = Some ScSession.
Proof. reflexivity. Qed.

Lemma trackerOf_setTracker sc id r t :
  trackerOf sc (setTracker sc id r t) = <[id := r]> (trackerOf sc t).
Proof. by destruct sc. Qed.

Lemma trackerOf_setTracker_ne sc sc' id r t :
  sc ≠ sc' → trackerOf sc' (setTracker sc id r t) = trackerOf sc' t.
Proof. by destruct sc, sc'. Qed.

(** What one call does on a tracked scope, in equations. *)
Lemma checkLimit_tracked L id type sc now now' :
  resolve type = Some sc →
  let limit := limitOf sc (limits L) in
  let start :=
    match trackerOf sc (trackers L) !! id with
    | Some r => if now - firstRequest r >? l_window limit
                then mkRecord 0 now (l_requests limit) else r
    | None => mkRecord 0 now (l_requests limit)
    end in
  let rec := mkRecord (requests start + 1) (firstRequest start) (dynamic start) in
  let ok := requests rec <=? dynamic rec in
  ∀ r L', checkLimit L id type now now' = (r, L') →
  allowed r = ok ∧
  retryAfter r = (if ok then None else Some 300) ∧
  limits L' = limits L ∧
  trackerOf sc (trackers L') = <[id := rec]> (trackerOf sc (trackers L)) ∧
  blocklist L' = (if ok then blocklist L else <[id := now' + 300000]> (blocklist L)).
Proof.
  intros Hsc. unfold checkLimit. rewrite Hsc. cbv zeta.
  generalize (match trackerOf sc (trackers L) !! id with
              | Some r => if now - firstRequest r >? l_window (limitOf sc (limits L))
                          then mkRecord 0 now (l_requests (limitOf sc (limits L))) else r
              | None => mkRecord 0 now (l_requests (limitOf sc (limits L)))
              end).
  intros start r L' [= <- <-].
  destruct (requests start + 1 <=? dynamic start) eqn:Hok; simpl; rewrite ?Hok;
    repeat split; simpl; auto using trackerOf_setTracker.
Qed.

Lemma checkMany_cons L id type now now' rest :
  checkMany L id type ((now, now') :: rest) =
  let '(r, L1) := checkLimit L id type now now' in
  let '(rs, L2) := checkMany L1 id type rest in
  (r :: rs, L2).
Proof. reflexivity. Qed.

(** Calls inside the current window only count up. *)
Lemma checkMany_in_window id type sc clock : ∀ L n t0 d,
  resolve type = Some sc →
  trackerOf sc (trackers L) !! id = Some (mkRecord n t0 d) →
  Forall (λ c, c.1 - t0 <= l_window (limitOf sc (limits L))) clock →
  let '(rs, L') := checkMany L id type clock in
  length rs = length clock ∧
  limits L' = limits L ∧
  trackerOf sc (trackers L') !! id = Some (mkRecord (n + Z.of_nat (length clock)) t0 d) ∧
  (n + Z.of_nat (length clock) <= d → Forall (λ r, allowed r = true) rs).
Proof.
  induction clock as [|[now now'] clock IH]; intros L n t0 d Hsc Hrec Hwin.
  - simpl. rewrite Z.add_0_r. auto.
  - inversion Hwin as [|? ? Hnow Hrest]; subst. simpl in Hnow.
    rewrite checkMany_cons.
    destruct (checkLimit L id type now now') as [r L1] eqn:Hstep.
    apply (checkLimit_tracked L id type sc now now' Hsc) in Hstep.
    rewrite Hrec in Hstep.
    replace (now - firstRequest (mkRecord n t0 d) >? l_window (limitOf sc (limits L)))
      with false in Hstep by (simpl; lia).
    simpl in Hstep. destruct Hstep as (Hal & _ & Hlim & Htr & _).
    specialize (IH L1 (n + 1) t0 d Hsc).
    rewrite Htr, lookup_insert_eq, Hlim in IH.
    specialize (IH eq_refl Hrest).
    destruct (checkMany L1 id type clock) as [rs L2].
    destruct IH as (Hlen & Hlim2 & Htr2 & Hall).
    repeat split.
    + cbn [length]. by rewrite Hlen.
    + congruence.
    + rewrite Htr2. cbn [length]. f_equal. f_equal. lia.
    + cbn [length]. intros Hle. constructor.
      * rewrite Hal. apply Z.leb_le. lia.
      * apply Hall. lia.
Qed.

(** C7. Rolling-window rate limiting in the session scope with the default
    limit of 50 per hour: for an identity without a window record, the
    first 50 calls issued within one hour of the first are all allowed; a
    51st call within that hour is denied, carries [retryAfter = 300] and
    puts the identity on the blocklist until five minutes after the call;
    a later call issued more than an hour after the first call is allowed
    and starts a fresh window with count 1. *)
Theorem rolling_window_session (L : Limiter) (id : string)
    (t0 t0' : Z) (clock : list (Z * Z)) (t51 t51' tn tn' : Z) :
  perSession (limits L) = mkLimit 50 hour →
  bySession (trackers L) !! id = None →
  length clock = 49%nat →
  Forall (λ c, c.1 - t0 <= hour) clock →
  t51 - t0 <= hour →
  hour < tn - t0 →
  ∃ rs L50 r51 L51 rn Ln,
    checkMany L id "session" ((t0, t0') :: clock) = (rs, L50) ∧
    length rs = 50%nat ∧ Forall (λ r, allowed r = true) rs ∧
    checkLimit L50 id "session" t51 t51' = (r51, L51) ∧
    allowed r51 = false ∧ retryAfter r51 = Some 300 ∧
    blocklist L51 !! id = Some (t51' + 5 * 60 * 1000) ∧
    checkLimit L51 id "session" tn tn' = (rn, Ln) ∧
    allowed rn = true ∧
    bySession (trackers Ln) !! id = Some (mkRecord 1 tn 50).
Proof.
  intros Hlim Hfresh Hlen Hwin H51 Hn.
  (* first call: a fresh window *)
  rewrite checkMany_cons. destruct (checkLimit L id "session" t0 t0') as [r1 L1] eqn:H1.
  apply (checkLimit_tracked L id "session" ScSession t0 t0' resolve_session) in H1.
  simpl trackerOf in H1. simpl limitOf in H1.
  rewrite Hfresh, Hlim in H1. simpl in H1.
  (* calls 2..50 *)
  destruct H1 as (Hal1 & _ & Hlim1 & Htr1 & _).
  pose proof (checkMany_in_window id "session" ScSession clock L1 1 t0 50 resolve_session) as Hrun.
  simpl trackerOf in Hrun. simpl limitOf in Hrun.
  rewrite Htr1, lookup_insert_eq, Hlim1, Hlim in Hrun.
  specialize (Hrun eq_refl Hwin).
  destruct (checkMany L1 id "session" clock) as [rs L50].
  destruct Hrun as (Hlen50 & Hlim50 & Htr50 & Hall50).
  rewrite Hlen in Htr50, Hall50.
  (* call 51 *)
  destruct (checkLimit L50 id "session" t51 t51') as [r51 L51] eqn:E2.
  pose proof (checkLimit_tracked L50 id "session" ScSession t51 t51' resolve_session _ _ E2) as H2.
  simpl trackerOf in H2. simpl limitOf in H2.
  rewrite Htr50, Hlim50, Hlim in H2. simpl in H2.
  assert (Hin : (t51 - t0 >? hour) = false) by (rewrite Z.gtb_ltb; apply Z.ltb_ge; lia).
  rewrite Hin in H2. simpl in H2.
  destruct H2 as (Hal51 & Hret51 & Hlim51 & Htr51 & Hbl51).
  (* the call after the window *)
  destruct (checkLimit L51 id "session" tn tn') as [rn Ln] eqn:E3.
  pose proof (checkLimit_tracked L51 id "session" ScSession tn tn' resolve_session _ _ E3) as H3.
  simpl trackerOf in H3. simpl limitOf in H3.
  rewrite Htr51, lookup_insert_eq, Hlim51, Hlim in H3. simpl in H3.
  assert (Hout : (tn - t0 >? hour) = true) by (rewrite Z.gtb_ltb; apply Z.ltb_lt; lia).
  rewrite Hout in H3. simpl in H3.
  destruct H3 as (Haln & _ & _ & Htrn & _).
  exists (r1 :: rs), L50, r51, L51, rn, Ln.
  split; [reflexivity|].
  split; [cbn [length]; by rewrite Hlen50, Hlen|].
  split; [constructor; [exact Hal1 | apply Hall50; lia]|].
  split; [exact E2|].
  split; [exact Hal51|].
  split; [exact Hret51|].
  split; [rewrite Hbl51; apply lookup_insert_eq|].
  split; [exact E3|].
  split; [exact Haln|].
  rewrite Htrn. apply lookup_insert_eq.
Qed.

Lemma rolling_window_session_witness :
  let clock := repeat (10, 11) 49 in
  perSession (limits constructor) = mkLimit 50 hour ∧
  ∃ rs L50 r51 L51 rn Ln,
    checkMany constructor "s1" "session" ((0, 1) :: clock) = (rs, L50) ∧
    length rs = 50%nat ∧ Forall (λ r, allowed r = true) rs ∧
    checkLimit L50 "s1" "session" 20 21 = (r51, L51) ∧
    allowed r51 = false ∧ retryAfter r51 = Some 300 ∧
    blocklist L51 !! "s1" = Some (21 + 5 * 60 * 1000) ∧
    checkLimit L51 "s1" "session" (hour + 1) (hour + 2) = (rn, Ln) ∧
    allowed rn = true ∧
    bySession (trackers Ln) !! "s1" = Some (mkRecord 1 (hour + 1) 50).
Proof.
  split; [reflexivity|].
  apply (rolling_window_session constructor "s1" 0 1 (repeat (10, 11) 49) 20 21 (hour + 1) (hour + 2)).
  - reflexivity.
  - reflexivity.
  - reflexivity.
  - apply Forall_forall. intros c Hc. apply list_elem_of_In, repeat_spec in Hc. subst c. vm_compute. discriminate.
  - vm_compute. discriminate.
  - vm_compute. reflexivity.
Defined.

(** C9, as the code has it.  A call on a tracked scope always counts: the
    identity's record afterwards holds the count of its live window before the
    call plus one, whether the call is allowed or denied.  A denied call
    (re)writes the blocklist entry to five minutes after the call, and the
    next call in the same window is denied again, counts again and moves the
    unblock instant to five minutes after that call.  A call with the
    lower-case scope name "ip", which selects no tracker, is allowed and
    changes nothing. *)
Theorem denied_call_changes_state (L : Limiter) (id type : string) (sc : Scope)
    (now now' : Z) (r : CheckResult) (L' : Limiter) :
  resolve type = Some sc →
  checkLimit L id type now now' = (r, L') →
  let W := l_window (limitOf sc (limits L)) in
  let before :=
    match trackerOf sc (trackers L) !! id with
    | Some rec => if now - firstRequest rec >? W then 0 else requests rec
    | None => 0
    end in
  (∃ rec',
    trackerOf sc (trackers L') !! id = Some rec' ∧
    requests rec' = before + 1 ∧
    allowed r = (requests rec' <=? dynamic rec') ∧
    (allowed r = false →
       blocklist L' !! id = Some (now' + 5 * 60 * 1000) ∧
       ∀ now2 now2' r2 L2,
         now2 - firstRequest rec' <= W →
         checkLimit L' id type now2 now2' = (r2, L2) →
         allowed r2 = false ∧
         (∃ rec2, trackerOf sc (trackers L2) !! id = Some rec2 ∧
                  requests rec2 = requests rec' + 1) ∧
         blocklist L2 !! id = Some (now2' + 5 * 60 * 1000))) ∧
  (∀ L0 id0 t t', checkLimit L0 id0 "ip" t t' = (mkResult true Infinite None, L0)).
Proof.
  intros Hsc Hcall W before.
  pose proof (checkLimit_tracked L id type sc now now' Hsc _ _ Hcall) as H1.
  cbv zeta in H1. fold W in H1.
  set (start := match trackerOf sc (trackers L) !! id with
                | Some r0 => if now - firstRequest r0 >? W
                             then mkRecord 0 now (l_requests (limitOf sc (limits L))) else r0
                | None => mkRecord 0 now (l_requests (limitOf sc (limits L)))
                end) in H1.
  assert (Hbefore : requests start = before).
  { unfold start, before. destruct (trackerOf sc (trackers L) !! id) as [r0|]; [|done].
    by destruct (now - firstRequest r0 >? W). }
  destruct H1 as (Hal & _ & Hlim & Htr & Hbl).
  split; [|intros L0 id0 t t'; reflexivity].
  exists (mkRecord (requests start + 1) (firstRequest start) (dynamic start)).
  split; [rewrite Htr; apply lookup_insert_eq|].
  split; [simpl; by rewrite Hbefore|].
  split; [exact Hal|].
  intros Hdenied. rewrite Hdenied in Hal. simpl in Hal, Hbl. rewrite <- Hal in Hbl.
  split; [rewrite Hbl; apply lookup_insert_eq|].
  intros now2 now2' r2 L2 Hwin Hcall2.
  pose proof (checkLimit_tracked L' id type sc now2 now2' Hsc _ _ Hcall2) as H2.
  cbv zeta in H2. rewrite Htr, lookup_insert_eq, Hlim in H2. fold W in H2.
  simpl in Hwin.
  assert (Hin : (now2 - firstRequest start >? W) = false)
    by (rewrite Z.gtb_ltb; apply Z.ltb_ge; lia).
  simpl in H2. rewrite Hin in H2. simpl in H2.
  symmetry in Hal. apply Z.leb_gt in Hal.
  assert (Hover : (requests start + 1 + 1 <=? dynamic start) = false)
    by (apply Z.leb_gt; lia).
  rewrite Hover in H2.
  destruct H2 as (Hal2 & _ & _ & Htr2 & Hbl2).
  split; [exact Hal2|].
  split.
  - eexists. split; [rewrite Htr2; apply lookup_insert_eq|reflexivity].
  - rewrite Hbl2. apply lookup_insert_eq.
Qed.

Lemma denied_call_changes_state_witness :
  let L := mkLimiter defaultLimits (mkTrackers ∅ {["s1" := mkRecord 50 0 50]} ∅) ∅ in
  let r := (checkLimit L "s1" "session" 10 11).1 in
  let L' := (checkLimit L "s1" "session" 10 11).2 in
  resolve "session" = Some ScSession ∧
  allowed r = false ∧
  (∃ rec',
    bySession (trackers L') !! "s1" = Some rec' ∧
    requests rec' = 50 + 1 ∧
    allowed r = (requests rec' <=? dynamic rec') ∧
    (allowed r = false →
       blocklist L' !! "s1" = Some (11 + 5 * 60 * 1000) ∧
       ∀ now2 now2' r2 L2,
         now2 - firstRequest rec' <= hour →
         checkLimit L' "s1" "session" now2 now2' = (r2, L2) →
         allowed r2 = false ∧
         (∃ rec2, bySession (trackers L2) !! "s1" = Some rec2 ∧
                  requests rec2 = requests rec' + 1) ∧
         blocklist L2 !! "s1" = Some (now2' + 5 * 60 * 1000))) ∧
  (∀ L0 id0 t t', checkLimit L0 id0 "ip" t t' = (mkResult true Infinite None, L0)).
Proof.
  split; [reflexivity|]. split; [reflexivity|].
  exact (denied_call_changes_state
           (mkLimiter defaultLimits (mkTrackers ∅ {["s1" := mkRecord 50 0 50]} ∅) ∅)
           "s1" "session" ScSession 10 11 _ _ eq_refl eq_refl).
Defined.

(** C9 as stated fails: not every call counts.  The lower-case scope name
    "ip" selects no tracker, so a call for an address that has used up its
    500 requests is allowed, reports an unlimited remaining count and leaves
    the window count, the blocklist and everything else as they were. *)
Lemma untracked_call_counts_nothing :
  let L := mkLimiter defaultLimits
                     (mkTrackers ∅ ∅ {["10.0.0.1" := mkRecord 500 0 500]}) ∅ in
  let '(r, L') := checkLimit L "10.0.0.1" "ip" 10 11 in
  allowed r = true ∧ remaining r = Infinite ∧
  byIP (trackers L') !! "10.0.0.1" = Some (mkRecord 500 0 500) ∧
  blocklist L' !! "10.0.0.1" = None ∧
  L' = L.
Proof. vm_compute. repeat split. Qed.

(** The sweep does purge the session windows whose duration has elapsed ... *)
Lemma cleanup_purges_sessions L now id r :
  bySession (trackers L) !! id = Some r →
  now - firstRequest r > l_window (perSession (limits L)) →
  bySession (trackers (cleanup L now)) !! id = None.
Proof.
  intros Hr Hold. unfold cleanup. simpl.
  apply map_lookup_filter_None. right. intros r' Hr'. simpl.
  rewrite Hr in Hr'. injection Hr' as <-. tauto.
Qed.

(** ... and the blocklist entries whose cool-down has elapsed ... *)
Lemma cleanup_purges_blocklist L now id blockTime :
  blocklist L !! id = Some blockTime →
  blockTime < now →
  blocklist (cleanup L now) !! id = None.
Proof.
  intros Hb Hold. unfold cleanup. simpl.
  apply map_lookup_filter_None. right. intros b' Hb'. simpl.
  rewrite Hb in Hb'. injection Hb' as <-. tauto.
Qed.

(** ... keeps the live ones ... *)
Lemma cleanup_keeps_live_sessions L now id r :
  bySession (trackers L) !! id = Some r →
  now - firstRequest r <= l_window (perSession (limits L)) →
  bySession (trackers (cleanup L now)) !! id = Some r.
Proof.
  intros Hr Hlive. unfold cleanup. simpl.
  apply map_lookup_filter_Some. split; [done|]. simpl. lia.
Qed.

(** ... but never looks at the per-user and per-address trackers. *)
Lemma cleanup_ignores_user_and_address L now :
  byUser (trackers (cleanup L now)) = byUser (trackers L) ∧
  byIP (trackers (cleanup L now)) = byIP (trackers L).
Proof. split; reflexivity. Qed.

(** C8, at a failing input.  One request in the user scope and one in the
    network-address scope at instant 0, then a sweep two hours later: both
    window records have outlived their one-hour window and both survive
    the sweep. *)
Theorem cleanup_leaves_user_and_address_windows :
  let L1 := (checkLimit constructor "u1" "user" 0 0).2 in
  let L2 := (checkLimit L1 "10.0.0.1" "IP" 0 0).2 in
  let now := 2 * hour in
  let L3 := cleanup L2 now in
  byUser (trackers L3) !! "u1" = Some (mkRecord 1 0 100) ∧
  now - 0 > l_window (perUser (limits L3)) ∧
  byIP (trackers L3) !! "10.0.0.1" = Some (mkRecord 1 0 500) ∧
  now - 0 > l_window (perIP (limits L3)).
Proof. vm_compute. repeat split. Qed.
End RateLimiterFacts.

Section ResponseMergerFacts.
Import ResponseMerger.

Lemma Source_eqb_eq a b : Source_eqb a b = true ↔ a = b.
Proof. destruct a, b; simpl; split; congruence. Qed.

(** Every key is in every priority list. *)
Lemma priorityOrder_complete intent s : In s (priorityOrder intent).
Proof.
  unfold priorityOrder.
  destruct (String.eqb intent "realtime");
    [|destruct (String.eqb intent "rag" || String.eqb intent "pdf")%bool];
    destruct s; simpl; tauto.
Qed.

(** The first loop picks the first successful source of the list. *)
Lemma findPrimary_find sources order :
  findPrimary sources order =
  match List.find (succeeded sources) order with
  | Some p =>
      match sources p with
      | Some r => Some (p, orDefault (confidence r) (8 # 10))
      | None => None
      end
  | None => None
  end.
Proof.
  induction order as [|s rest IH]; [reflexivity|].
  simpl. unfold succeeded at 1.
  destruct (sources s) as [r|] eqn:Hs; [|exact IH].
  destruct (success r) eqn:Hok; [by rewrite Hs | exact IH].
Qed.

Lemma find_succeeded sources order p :
  List.find (succeeded sources) order = Some p →
  ∃ r, sources p = Some r ∧ success r = true.
Proof.
  intros H. apply find_some in H as [_ H]. unfold succeeded in H.
  destruct (sources p) as [r|]; [eauto | discriminate].
Qed.

(** [c || d] is positive for a confidence in the unit interval and a
    positive default. *)
Lemma orDefault_pos c d :
  (0 < d)%Q → (∀ q, c = Some q → (0 <= q)%Q) → (0 < orDefault c d)%Q.
Proof.
  intros Hd Hc. unfold orDefault. destruct c as [q|]; [|exact Hd].
  destruct (Qeq_bool q 0) eqn:Hz; [exact Hd|].
  apply Qeq_bool_neq in Hz. specialize (Hc q eq_refl).
  apply Qle_lteq in Hc as [Hlt|Heq]; [exact Hlt|]. symmetry in Heq. contradiction.
Qed.

Lemma orDefault_zero q d : (q == 0)%Q → orDefault (Some q) d = d.
Proof. intros Hq. unfold orDefault. by rewrite (Qeq_eq_bool _ _ Hq). Qed.

Lemma substring_length n : ∀ m s, (String.length (substring m n s) <= n)%nat.
Proof.
  induction n as [|n IH]; intros m s.
  - destruct m, s; simpl; try lia.
    revert s. induction m as [|m IHm]; intros [|b s]; simpl; auto.
  - revert s. induction m as [|m IHm]; intros [|b s]; simpl; try lia.
    + specialize (IH 0%nat s). lia.
    + apply IHm.
Qed.

Lemma append_length s t :
  String.length (String.append s t) = (String.length s + String.length t)%nat.
Proof. induction s as [|c s IH]; simpl; [reflexivity | by rewrite IH]. Qed.

Lemma preview_length c : (String.length (preview c) <= 103)%nat.
Proof.
  unfold preview. rewrite append_length. simpl String.length at 2.
  pose proof (substring_length 100 0 c). lia.
Qed.

(** The supplementary entry the second loop writes for a source. *)
Lemma supplementary_In sources primarySource order s r :
  In s order →
  primarySource ≠ Some s →
  sources s = Some r → success r = true →
  In (mkDetail s (orDefault (confidence r) (6 # 10)) (Some (preview (content r)))
               (metaOrEmpty (metadata r)))
     (supplementary sources primarySource order).
Proof.
  intros Hin Hnp Hs Hok. induction order as [|x rest IH]; [destruct Hin|].
  simpl. destruct Hin as [->|Hin].
  - rewrite Hs, Hok.
    assert (Hp : match primarySource with Some p => Source_eqb s p | None => false end = false).
    { destruct primarySource as [p|]; [|done].
      destruct (Source_eqb s p) eqn:E; [|done].
      apply Source_eqb_eq in E. congruence. }
    rewrite Hp. simpl. by left.
  - specialize (IH Hin). destruct (sources x) as [rx|]; [|exact IH].
    destruct (negb _ && success rx)%bool; [by right | exact IH].
Qed.

Lemma supplementary_none sources primarySource order :
  (∀ s, succeeded sources s = false) →
  supplementary sources primarySource order = [].
Proof.
  intros Hnone. induction order as [|x rest IH]; [reflexivity|].
  simpl. rewrite IH. specialize (Hnone x). unfold succeeded in Hnone.
  destruct (sources x) as [rx|]; [|reflexivity].
  rewrite Hnone. by rewrite andb_false_r.
Qed.

(** C5, as the code has it.  With source confidences in the unit interval:
    if some source succeeded, the primary content is the content of the
    first successful source in the priority order of the intent, whatever
    that content is, and the confidence score is positive; if none
    succeeded, the primary content is the empty string, the attribution
    list and the list of used sources are empty and the score is 0. *)
Theorem merge_invariant (sources : Sources) (query intent : string) :
  (∀ s r c, sources s = Some r → confidence r = Some c → (0 <= c <= 1)%Q) →
  let m := mergeResponses sources query intent in
  ((∃ s, succeeded sources s = true) →
     ∃ p r, List.find (succeeded sources) (priorityOrder intent) = Some p ∧
            sources p = Some r ∧ success r = true ∧
            primaryResponse m = content r ∧
            (0 < confidenceScore m)%Q) ∧
  ((∀ s, succeeded sources s = false) →
     primaryResponse m = "" ∧ sourceDetails m = [] ∧
     confidenceScore m = 0%Q ∧ usedSources m = []).
Proof.
  intros Hunit m. subst m. unfold mergeResponses. rewrite findPrimary_find. split.
  - intros [s Hs].
    destruct (List.find (succeeded sources) (priorityOrder intent)) as [p|] eqn:Hfind.
    + destruct (find_succeeded _ _ _ Hfind) as (r & Hr & Hok).
      exists p, r. rewrite Hr. simpl. rewrite Hr. simpl.
      repeat split; auto.
      apply orDefault_pos; [reflexivity|].
      intros q Hq. by destruct (Hunit p r q Hr Hq).
    + exfalso. pose proof (find_none _ _ Hfind s (priorityOrder_complete intent s)).
      congruence.
  - intros Hnone.
    destruct (List.find (succeeded sources) (priorityOrder intent)) as [p|] eqn:Hfind.
    + apply find_some in Hfind as [_ Hp]. rewrite Hnone in Hp. discriminate.
    + simpl. rewrite supplementary_none by exact Hnone. auto.
Qed.

Lemma merge_invariant_witness :
  let sources := onlyEmptyPdf in
  let m := mergeResponses sources "q" "rag" in
  (∀ s r c, sources s = Some r → confidence r = Some c → (0 <= c <= 1)%Q) ∧
  ((∃ s, succeeded sources s = true) →
     ∃ p r, List.find (succeeded sources) (priorityOrder "rag") = Some p ∧
            sources p = Some r ∧ success r = true ∧
            primaryResponse m = content r ∧
            (0 < confidenceScore m)%Q) ∧
  ((∀ s, succeeded sources s = false) →
     primaryResponse m = "" ∧ sourceDetails m = [] ∧
     confidenceScore m = 0%Q ∧ usedSources m = []).
Proof.
  assert (H : ∀ s r c, onlyEmptyPdf s = Some r → confidence r = Some c → (0 <= c <= 1)%Q).
  { intros [] r c Hs Hc; simpl in Hs; try discriminate.
    injection Hs as <-. injection Hc as <-. split; vm_compute; discriminate. }
  split; [exact H|].
  exact (merge_invariant onlyEmptyPdf "q" "rag" H).
Defined.

(** C5 as stated fails: a successful source with empty content becomes
    primary, and the primary content is then empty. *)
Lemma merge_primary_content_can_be_empty :
  ¬ (∀ (sources : Sources) (query intent : string),
       (∃ s r, sources s = Some r ∧ success r = true) →
       primaryResponse (mergeResponses sources query intent) ≠ "" ∧
       (0 < confidenceScore (mergeResponses sources query intent))%Q).
Proof.
  intros H.
  destruct (H onlyEmptyPdf "q" "rag") as [Hne _].
  - exists pdf. eexists. split; reflexivity.
  - apply Hne. reflexivity.
Qed.

(** C6. Under the realtime intent, with the realtime and the pdf source
    both successful, realtime is primary whatever the confidences are.
    The attribution list is the primary entry followed by one entry for
    every other successful source, in the priority order rag, pdf, llm;
    pdf is among these, and each of them carries a preview of at most 103
    characters (the first 100 of its content, then three dots). *)
Theorem realtime_priority_over_confidence (sources : Sources) (query : string)
    (rt pd : SourceResult) :
  sources realtime = Some rt → success rt = true →
  sources pdf = Some pd → success pd = true →
  let m := mergeResponses sources query "realtime" in
  primaryResponse m = content rt ∧
  confidenceScore m = orDefault (confidence rt) (8 # 10) ∧
  ∃ others,
    sourceDetails m =
      mkDetail realtime (orDefault (confidence rt) (8 # 10)) None (metaOrEmpty (metadata rt))
      :: others ∧
    usedSources m = realtime :: map source others ∧
    map source others = List.filter (succeeded sources) [rag; pdf; llm] ∧
    In pdf (map source others) ∧
    Forall (λ d, ∃ r p, sources (source d) = Some r ∧
                        d_confidence d = orDefault (confidence r) (6 # 10) ∧
                        d_content d = Some p ∧
                        p = String.append (substring 0 100 (content r)) "..." ∧
                        (String.length p <= 103)%nat) others.
Proof.
  intros Hrt Hrtok Hpd Hpdok m. subst m.
  unfold mergeResponses. change (priorityOrder "realtime") with [realtime; rag; pdf; llm].
  assert (Hfind : findPrimary sources [realtime; rag; pdf; llm]
                  = Some (realtime, orDefault (confidence rt) (8 # 10))).
  { simpl. by rewrite Hrt, Hrtok. }
  rewrite Hfind. simpl. rewrite Hrt, Hpd. simpl. rewrite Hpdok. simpl.
  split; [reflexivity|]. split; [reflexivity|].
  eexists. split; [reflexivity|]. split; [reflexivity|].
  unfold succeeded. rewrite Hpd, Hpdok.
  destruct (sources rag) as [rr|] eqn:Hrag; [destruct (success rr) eqn:Hragok|];
    (destruct (sources llm) as [rl|] eqn:Hllm; [destruct (success rl) eqn:Hllmok|]);
    simpl;
    (split; [reflexivity|]); (split; [tauto|]);
    repeat constructor; simpl; eexists; eexists;
      (split; [eassumption|]); repeat split; apply preview_length.
Qed.

Lemma realtime_priority_over_confidence_witness :
  let m := mergeResponses liveAndPrivate "weather in Paris" "realtime" in
  primaryResponse m = "Paris: 18C, clear" ∧
  confidenceScore m = (9 # 10)%Q ∧
  ∃ others,
    sourceDetails m = mkDetail realtime (9 # 10) None [] :: others ∧
    usedSources m = realtime :: map source others ∧
    map source others = List.filter (succeeded liveAndPrivate) [rag; pdf; llm] ∧
    In pdf (map source others) ∧
    Forall (λ d, ∃ r p, liveAndPrivate (source d) = Some r ∧
                        d_confidence d = orDefault (confidence r) (6 # 10) ∧
                        d_content d = Some p ∧
                        p = String.append (substring 0 100 (content r)) "..." ∧
                        (String.length p <= 103)%nat) others.
Proof.
  exact (realtime_priority_over_confidence liveAndPrivate "weather in Paris"
           (mkSource true "Paris: 18C, clear" (Some (9 # 10)) None)
           (mkSource true "Chapter 3: climate of Paris" (Some (95 # 100)) None)
           eq_refl eq_refl eq_refl eq_refl).
Defined.

(** C10. The defaults replace every falsy confidence: a primary source
    whose confidence is zero is reported with score [0.8] (also in its
    attribution entry), and any other successful source whose confidence is
    zero is attributed with confidence [0.6]. *)
Theorem zero_confidence_takes_default (sources : Sources) (query intent : string) :
  let m := mergeResponses sources query intent in
  (∀ p r z,
     List.find (succeeded sources) (priorityOrder intent) = Some p →
     sources p = Some r → confidence r = Some z → (z == 0)%Q →
     confidenceScore m = (8 # 10)%Q ∧
     head (sourceDetails m) = Some (mkDetail p (8 # 10) None (metaOrEmpty (metadata r)))) ∧
  (∀ s r z,
     List.find (succeeded sources) (priorityOrder intent) ≠ Some s →
     sources s = Some r → success r = true → confidence r = Some z → (z == 0)%Q →
     In (mkDetail s (6 # 10) (Some (preview (content r))) (metaOrEmpty (metadata r)))
        (sourceDetails m)).
Proof.
  intros m. subst m. unfold mergeResponses. rewrite findPrimary_find. split.
  - intros p r z Hfind Hr Hz Hzero. rewrite Hfind, Hr. simpl. rewrite Hr. simpl.
    rewrite Hz, (orDefault_zero z _ Hzero). split; reflexivity.
  - intros s r z Hnp Hs Hok Hz Hzero.
    apply in_or_app. right.
    pose proof (supplementary_In sources
                  (fst <$> match List.find (succeeded sources) (priorityOrder intent) with
                           | Some p => match sources p with
                                       | Some r0 => Some (p, orDefault (confidence r0) (8 # 10))
                                       | None => None
                                       end
                           | None => None
                           end)
                  (priorityOrder intent) s r (priorityOrder_complete intent s)) as Hin.
    rewrite Hz, (orDefault_zero z _ Hzero) in Hin. apply Hin; [|exact Hs|exact Hok].
    destruct (List.find (succeeded sources) (priorityOrder intent)) as [p|]; [|discriminate].
    destruct (sources p); simpl; congruence.
Qed.

Lemma zero_confidence_takes_default_witness :
  let m := mergeResponses zeroConfidence "hello" "general" in
  (confidenceScore m = (8 # 10)%Q ∧
   head (sourceDetails m) = Some (mkDetail llm (8 # 10) None [])) ∧
  In (mkDetail rag (6 # 10) (Some "Notes on greetings...") []) (sourceDetails m).
Proof.
  pose proof (zero_confidence_takes_default zeroConfidence "hello" "general") as [Hp Hs].
  split.
  - exact (Hp llm (mkSource true "Hello!" (Some 0%Q) None) 0%Q eq_refl eq_refl eq_refl
             (Qeq_refl 0)).
  - refine (Hs rag (mkSource true "Notes on greetings" (Some 0%Q) None) 0%Q _ eq_refl eq_refl
               eq_refl (Qeq_refl 0)).
    vm_compute. discriminate.
Defined.
End ResponseMergerFacts.

Section CacheFacts.
Context {V : Type}.

(** The process-local cache keeps the expiry invariant: a [get] issued
    after the expiry instant returns nothing and removes the entry. *)
Lemma CacheManager_get_expired (cache : gmap string (CacheManager.Entry V)) key e now :
  cache !! key = Some e →
  CacheManager.expiryTime e < now →
  CacheManager.get cache key now = (None, delete key cache) ∧
  (CacheManager.get cache key now).2 !! key = None.
Proof.
  intros He Hexp. unfold CacheManager.get. rewrite He.
  assert (Hgt : (now >? CacheManager.expiryTime e) = true)
    by (rewrite Z.gtb_ltb; apply Z.ltb_lt; lia).
  rewrite Hgt. split; [reflexivity|]. apply lookup_delete_eq.
Qed.

Lemma CacheManager_set_get (cache : gmap string (CacheManager.Entry V)) key v ttl t now :
  now <= t + ttl * 1000 →
  (CacheManager.get (CacheManager.set cache key v ttl t) key now).1 = Some v.
Proof.
  intros Hlive. unfold CacheManager.get, CacheManager.set. rewrite lookup_insert_eq. simpl.
  assert (Hgt : (now >? t + ttl * 1000) = false)
    by (rewrite Z.gtb_ltb; apply Z.ltb_ge; lia).
  by rewrite Hgt.
Qed.

Variable parse : string → option V.

(** The two-tier cache never returns an expired local entry ... *)
Lemma DistributedCache_local_expired_is_miss (st : DistributedCache.State V) key e now :
  DistributedCache.localCache st !! key = Some e →
  DistributedCache.expiresAt e < now →
  DistributedCache.getLocal st key now = None.
Proof.
  intros He Hexp. unfold DistributedCache.getLocal. rewrite He.
  assert (Hgt : (DistributedCache.expiresAt e >? now) = false)
    by (rewrite Z.gtb_ltb; apply Z.ltb_ge; lia).
  by rewrite Hgt.
Qed.

(** ... but its [get] has no effect on the state at all. *)
Lemma DistributedCache_get_keeps_state (st : DistributedCache.State V) key now :
  (DistributedCache.get parse st key now).2 = st.
Proof.
  unfold DistributedCache.get.
  destruct (DistributedCache.redis st) as [client|]; [|reflexivity].
  destruct (client key) as [[v|]|]; try reflexivity.
  by destruct (String.eqb v "").
Qed.
End CacheFacts.

(** C4, at a failing input.  A local-only two-tier cache, one entry written
    at instant 0 with a time to live of one second, read at instant 1001:
    the read misses, and the expired entry is still in the local store. *)
Theorem DistributedCache_get_leaves_stale_entry :
  let parse : string → option string := Some in
  let st0 := DistributedCache.mkState None ∅ in
  let st1 := DistributedCache.set st0 "weather:paris" "18C" 1 0 true in
  let '(result, st2) := DistributedCache.get parse st1 "weather:paris" 1001 in
  DistributedCache.localCache st1 !! "weather:paris" = Some (DistributedCache.mkEntry "18C" 1000) ∧
  result = None ∧
  DistributedCache.localCache st2 !! "weather:paris" = Some (DistributedCache.mkEntry "18C" 1000).
Proof. vm_compute. repeat split. Qed.

Section IntentFacts.
Import Js IntentModel IntentDetector.

Lemma matchCount_nonneg messageLower kws : 0 <= matchCount messageLower kws.
Proof. unfold matchCount. lia. Qed.

(** The keyword loop completes only if no live-data keyword occurs, and
    then leaves the realtime score as it was. *)
Lemma scanPatterns_normal message messageLower patterns : ∀ acc z,
  scanPatterns message messageLower patterns acc = Normal z ↔
  z = acc ∧ Forall (λ kp, matchCount messageLower (keywords kp.2) = 0) patterns.
Proof.
  induction patterns as [|[key pattern] rest IH]; intros acc z; simpl.
  - split; [intros [= ->]; auto | intros [-> _]; reflexivity].
  - pose proof (matchCount_nonneg messageLower (keywords pattern)) as Hnn.
    destruct (0 <? matchCount messageLower (keywords pattern)) eqn:Hpos.
    + apply Z.ltb_lt in Hpos. split; [discriminate|].
      intros [_ Hall]. inversion Hall as [|? ? H0 _]; subst. simpl in H0. lia.
    + apply Z.ltb_ge in Hpos. rewrite IH. split.
      * intros [-> Hall]. split; [reflexivity|]. constructor; [simpl; lia | exact Hall].
      * intros [-> Hall]. inversion Hall; subst. auto.
Qed.

Lemma scanPatterns_raises message messageLower patterns : ∀ acc,
  (∃ e, scanPatterns message messageLower patterns acc = Throw e) ↔
  Exists (λ kp, 0 < matchCount messageLower (keywords kp.2)) patterns.
Proof.
  induction patterns as [|[key pattern] rest IH]; intros acc; simpl.
  - split; [intros [e H]; discriminate | intros H; inversion H].
  - destruct (0 <? matchCount messageLower (keywords pattern)) eqn:Hpos.
    + apply Z.ltb_lt in Hpos. split; [intros _; by left | eauto].
    + apply Z.ltb_ge in Hpos. rewrite IH. split; [intros H; by right|].
      intros H. inversion H as [? ? H0|]; subst; [simpl in H0; lia | done].
Qed.

(** The rule-based path raises exactly on the messages that contain a
    live-data keyword. *)
Lemma detectIntentRuleBased_raises_iff message :
  (∃ e, detectIntentRuleBased message = Throw e) ↔
  Exists (λ kp, 0 < matchCount (toLowerCase message) (keywords kp.2)) INTENT_PATTERNS.
Proof.
  rewrite <- (scanPatterns_raises message (toLowerCase message) INTENT_PATTERNS 0).
  unfold detectIntentRuleBased.
  destruct (scanPatterns message (toLowerCase message) INTENT_PATTERNS 0) as [z|e];
    cbn [bind].
  - split; intros [e H]; discriminate.
  - split; eauto.
Qed.

Lemma detectIntent_raises_iff message :
  (∃ e, detectIntent message = Throw e) ↔
  Exists (λ kp, 0 < matchCount (toLowerCase message) (keywords kp.2)) INTENT_PATTERNS.
Proof.
  rewrite <- detectIntentRuleBased_raises_iff. unfold detectIntent.
  destruct (detectIntentRuleBased message) as [rb|e]; cbn [bind].
  - split; intros [e H]; discriminate.
  - split; eauto.
Qed.


(** ... and [predictIntentML] masks that failure: the rule-based verdict
    is returned, marked with the error. *)
Lemma predictIntentML_masks_failure c message ruleBased :
  isTrained c = false →
  let result := predictIntentMLWith c message ruleBased in
  r_intent result = r_intent ruleBased ∧
  r_confidence result = r_confidence ruleBased ∧
  r_method result = Some "rule-based" ∧
  r_error result = Some "ML prediction failed".
Proof.
  intros Hc. unfold predictIntentMLWith, predict. rewrite Hc. cbn. auto.
Qed.


(** The running maximum of the selection loop is the maximum that
    [Math.max] returns, so the confidence quotient has equal numerator and
    denominator. *)
Lemma argmax_fold (scores : Dict lognum) : ∀ (bestClass : option string) bestScore,
  snd (fold_left
         (λ '(bestClass, bestScore) '(className, score),
            if gt score bestScore then (Some className, score) else (bestClass, bestScore))
         scores (bestClass, bestScore))
  = fold_left (λ m x, if gt x m then x else m) (map snd scores) bestScore.
Proof.
  induction scores as [|[className score] rest IH]; intros bestClass bestScore; simpl.
  - reflexivity.
  - destruct (gt score bestScore); apply IH.
Qed.

Lemma bestScore_is_maxScore (scores : Dict lognum) :
  existsb isNaN (map snd scores) = false →
  snd (argmax scores) = mathMax (map snd scores).
Proof.
  intros Hnan. unfold argmax, mathMax. rewrite Hnan. apply argmax_fold.
Qed.

(** Hence the confidence of a prediction is never strictly between the
    extremes: it is 0.5 when all classes tie, 1 when they do not, and [NaN]
    when a score is not a number. *)
Lemma predict_confidence_values c text p :
  predict c text = Normal p →
  p_confidence p = Fin (5 # 10) ∨ p_confidence p = Fin 1 ∨ p_confidence p = NaN.
Proof.
  unfold predict. destruct (negb (isTrained c)); [discriminate|].
  set (scores := map _ (classPrior c)).
  pose proof (bestScore_is_maxScore scores) as Hbest.
  destruct (argmax scores) as [bestClass bestScore]. simpl in Hbest.
  intros [= <-]. cbn [p_confidence].
  destruct (strictEq _ _); [by left | right].
  unfold mathMax in *.
  destruct (existsb isNaN (map snd scores)).
  - right. unfold quotient. by destruct bestScore, (mathMin (map snd scores)).
  - rewrite <- (Hbest eq_refl). unfold quotient.
    destruct bestScore as [|b| |]; auto.
    destruct (mathMin (map snd scores)) as [|m| |]; auto.
    left. by rewrite (Qeq_eq_bool b b (Qeq_refl b)).
Qed.

(** C1, at a failing input.  On a message that contains the live-data
    keyword "weather" the rule-based path assigns [_detectedType] on the
    string primitive; the [TypeError] is raised before the statistical path
    and its [try] block are reached, and leaves [detectIntent]. *)
Theorem detectIntent_raises_on_weather :
  detectIntentRuleBased "weather"
    = Throw (TypeError "Cannot create property '_detectedType' on string") ∧
  detectIntent "weather"
    = Throw (TypeError "Cannot create property '_detectedType' on string") ∧
  detectIntent "What's the weather in Paris?"
    = Throw (TypeError "Cannot create property '_detectedType' on string") ∧
  detectIntent "What is the weather today?"
    = Throw (TypeError "Cannot create property '_detectedType' on string").
Proof. vm_compute. repeat split. Qed.

(** C2 as stated fails: on the empty message the classifier does not
    answer general with confidence 0. *)
Lemma detectIntent_empty_not_general :
  ¬ ∃ r q, detectIntent "" = Normal r ∧ r_intent r = Some "general" ∧
           r_confidence r = Fin q ∧ (q == 0)%Q.
Proof.
  intros (r & q & Hr & Hi & _). vm_compute in Hr. injection Hr as <-. discriminate.
Qed.

(** C2, as the code has it.  On the empty message the rule-based path
    answers general with confidence 0, but the statistical path, with no
    feature to score, ranks the classes by their priors and reports
    confidence 1, which is above the fusion threshold: [detectIntent]
    returns realtime by method "ml" with final confidence
    0.7 * 1 + 0.3 * 0.5 = 0.85. *)
Theorem detectIntent_empty :
  (∃ rb, detectIntentRuleBased "" = Normal rb ∧
         r_intent rb = Some "general" ∧ r_confidence rb = Fin 0) ∧
  (∃ p, predict mlClassifier "" = Normal p ∧
        p_intent p = Some "realtime" ∧ p_confidence p = Fin 1) ∧
  (∃ r q, detectIntent "" = Normal r ∧
          r_intent r = Some "realtime" ∧ r_method r = Some "ml" ∧
          r_confidence r = Fin q ∧ (q == 85 # 100)%Q).
Proof.
  split; [|split].
  - eexists. vm_compute. repeat split.
  - eexists. vm_compute. repeat split.
  - eexists. eexists. vm_compute. repeat split.
Qed.

(** The selection rule on arbitrary non-negative counts: realtime wins
    every tie it takes part in, rag wins a tie with general. *)
Lemma dominantIntent_spec (sc : RuleScores) :
  0 <= s_realtime sc → 0 <= s_rag sc → 0 <= s_general sc →
  (dominantIntent sc = "realtime" ↔
     0 < s_realtime sc ∧ s_rag sc <= s_realtime sc ∧ s_general sc <= s_realtime sc) ∧
  (dominantIntent sc = "rag" ↔
     0 < s_rag sc ∧ s_realtime sc < s_rag sc ∧ s_general sc <= s_rag sc) ∧
  (dominantIntent sc = "general" ↔
     (s_realtime sc = 0 ∧ s_rag sc = 0 ∧ s_general sc = 0) ∨
     (s_realtime sc < s_general sc ∧ s_rag sc < s_general sc)).
Proof.
  intros Hrt Hrag Hgen. unfold dominantIntent.
  destruct (s_realtime sc =? _) eqn:E1; destruct (0 <? s_realtime sc) eqn:P1; cbn [andb];
    [| | |];
    try (destruct (s_rag sc =? _) eqn:E2; destruct (0 <? s_rag sc) eqn:P2; cbn [andb]);
    rewrite ?Z.eqb_eq, ?Z.eqb_neq, ?Z.ltb_lt, ?Z.ltb_ge in *;
    (split; [|split]); (split; [try discriminate; intros _; lia | try reflexivity; lia]).
Qed.

(** C3, as the code has it.  Whenever the rule-based classifier returns on a
    message of ASCII characters, the three counts it reports are the keyword
    counts of the lower-cased message (the realtime count being the sum over
    the four live-data patterns) and its category is determined by them as
    follows: realtime iff the realtime count is positive and not below the
    other two; rag iff the rag count is positive, above the realtime count and
    not below the general count; general otherwise, that is when all counts
    are zero or the general count is strictly the largest.  So a category
    other than general is returned only for a positive maximal count, and
    the maximum need not be strict.  The selection rule [dominantIntent]
    itself obeys the same three equivalences on all non-negative counts. *)
Theorem rule_based_dominant (message : string) (r : IntentResult) :
  isAscii message = true →
  detectIntentRuleBased message = Normal r →
  (∃ sc,
    r_scores r = FromRules sc ∧
    s_realtime sc
    = fold_right Z.add 0
        (map (λ kp, matchCount (toLowerCase message) (keywords kp.2)) INTENT_PATTERNS) ∧
    s_rag sc = matchCount (toLowerCase message) ragKeywords ∧
    s_general sc = matchCount (toLowerCase message) generalKeywords ∧
    r_intent r = Some (dominantIntent sc) ∧
    (r_intent r = Some "realtime" ↔
       0 < s_realtime sc ∧ s_rag sc <= s_realtime sc ∧ s_general sc <= s_realtime sc) ∧
    (r_intent r = Some "rag" ↔
       0 < s_rag sc ∧ s_realtime sc < s_rag sc ∧ s_general sc <= s_rag sc) ∧
    (r_intent r = Some "general" ↔
       (s_realtime sc = 0 ∧ s_rag sc = 0 ∧ s_general sc = 0) ∨
       (s_realtime sc < s_general sc ∧ s_rag sc < s_general sc))) ∧
  (∀ sc, 0 <= s_realtime sc → 0 <= s_rag sc → 0 <= s_general sc →
    (dominantIntent sc = "realtime" ↔
       0 < s_realtime sc ∧ s_rag sc <= s_realtime sc ∧ s_general sc <= s_realtime sc) ∧
    (dominantIntent sc = "rag" ↔
       0 < s_rag sc ∧ s_realtime sc < s_rag sc ∧ s_general sc <= s_rag sc) ∧
    (dominantIntent sc = "general" ↔
       (s_realtime sc = 0 ∧ s_rag sc = 0 ∧ s_general sc = 0) ∨
       (s_realtime sc < s_general sc ∧ s_rag sc < s_general sc))).
Proof.
  intros _. unfold detectIntentRuleBased.
  destruct (scanPatterns message (toLowerCase message) INTENT_PATTERNS 0) as [z|e] eqn:Hscan;
    cbn [bind]; [|discriminate].
  apply scanPatterns_normal in Hscan as [-> Hnone].
  intros [= <-]. cbn [r_scores r_intent]. split; [|apply dominantIntent_spec].
  eexists. split; [reflexivity|]. cbn [s_rag s_general s_realtime].
  split.
  { clear -Hnone. induction Hnone as [|kp rest Hkp _ IH]; [reflexivity|].
    cbn [map fold_right]. rewrite Hkp, <- IH. reflexivity. }
  split; [reflexivity|]. split; [reflexivity|]. split; [reflexivity|].
  pose proof (matchCount_nonneg (toLowerCase message) ragKeywords) as Hrag.
  pose proof (matchCount_nonneg (toLowerCase message) generalKeywords) as Hgen.
  destruct (dominantIntent_spec
              (mkScores 0 (0 + matchCount (toLowerCase message) ragKeywords)
                          (0 + matchCount (toLowerCase message) generalKeywords)))
    as (H1 & H2 & H3); cbn [s_rag s_general s_realtime] in *; try lia.
  rewrite <- H1, <- H2, <- H3.
  repeat split; intros H; congruence.
Qed.

Lemma rule_based_dominant_witness :
  isAscii "hi explain" = true ∧
  ∃ r, detectIntentRuleBased "hi explain" = Normal r ∧
  (∃ sc,
    r_scores r = FromRules sc ∧
    s_realtime sc
    = fold_right Z.add 0
        (map (λ kp, matchCount (toLowerCase "hi explain") (keywords kp.2)) INTENT_PATTERNS) ∧
    s_rag sc = matchCount (toLowerCase "hi explain") ragKeywords ∧
    s_general sc = matchCount (toLowerCase "hi explain") generalKeywords ∧
    r_intent r = Some (dominantIntent sc) ∧
    (r_intent r = Some "realtime" ↔
       0 < s_realtime sc ∧ s_rag sc <= s_realtime sc ∧ s_general sc <= s_realtime sc) ∧
    (r_intent r = Some "rag" ↔
       0 < s_rag sc ∧ s_realtime sc < s_rag sc ∧ s_general sc <= s_rag sc) ∧
    (r_intent r = Some "general" ↔
       (s_realtime sc = 0 ∧ s_rag sc = 0 ∧ s_general sc = 0) ∨
       (s_realtime sc < s_general sc ∧ s_rag sc < s_general sc))).
Proof.
  split; [reflexivity|].
  eexists. split; [vm_compute; reflexivity|].
  apply (rule_based_dominant "hi explain"); vm_compute; reflexivity.
Defined.

(** C3 as stated fails: "hi explain" matches one rag keyword and one
    general keyword, a tie for the maximum, and the result is rag. *)
Lemma rule_based_tie_goes_to_rag :
  ∃ r, detectIntentRuleBased "hi explain" = Normal r ∧
       r_scores r = FromRules (mkScores 0 1 1) ∧
       r_intent r = Some "rag" ∧ r_intent r ≠ Some "general".
Proof. eexists. vm_compute. repeat split. discriminate. Qed.
End IntentFacts.

(** * Further properties *)

Section RateLimiterMore.
Import RateLimiter.

Lemma isBlocked_keeps_counters L id t :
  limits (isBlocked L id t).2 = limits L ∧ trackers (isBlocked L id t).2 = trackers L.
Proof.
  unfold isBlocked. destruct (blocklist L !! id) as [b|]; [|done].
  destruct (b =? 0); [done|]. by destruct (b <? t).
Qed.

(** X1. After a denied call read at a non-negative clock value, [isBlocked]
    answers true for the identity at every instant up to five minutes after
    the call and changes nothing; at any later instant it answers false and
    deletes the blocklist entry.  It never touches the window counters. *)
Theorem blocked_through_cooldown (L : Limiter) (id type : string) (sc : Scope)
    (now now' : Z) (r : CheckResult) (L' : Limiter) :
  resolve type = Some sc →
  checkLimit L id type now now' = (r, L') →
  allowed r = false →
  0 <= now' →
  (∀ t, t <= now' + 300000 → isBlocked L' id t = (true, L')) ∧
  (∀ t, now' + 300000 < t →
     isBlocked L' id t
     = (false, mkLimiter (limits L') (trackers L') (delete id (blocklist L')))) ∧
  (∀ t, trackers (isBlocked L' id t).2 = trackers L').
Proof.
  intros Hsc Hcall Hden Hclock.
  pose proof (checkLimit_tracked L id type sc now now' Hsc _ _ Hcall) as H.
  cbv zeta in H. destruct H as (Hal & _ & _ & _ & Hbl).
  rewrite Hden in Hal. rewrite <- Hal in Hbl.
  assert (Hentry : blocklist L' !! id = Some (now' + 300000))
    by (rewrite Hbl; apply lookup_insert_eq).
  assert (Hnz : (now' + 300000 =? 0) = false) by (apply Z.eqb_neq; lia).
  split; [|split].
  - intros t Ht. unfold isBlocked. rewrite Hentry, Hnz.
    assert (Hlt : (now' + 300000 <? t) = false) by (apply Z.ltb_ge; lia).
    by rewrite Hlt.
  - intros t Ht. unfold isBlocked. rewrite Hentry, Hnz.
    assert (Hlt : (now' + 300000 <? t) = true) by (apply Z.ltb_lt; lia).
    by rewrite Hlt.
  - intros t. apply isBlocked_keeps_counters.
Qed.

Lemma blocked_through_cooldown_witness :
  let L := mkLimiter defaultLimits (mkTrackers ∅ {["s1" := mkRecord 50 0 50]} ∅) ∅ in
  let L' := (checkLimit L "s1" "session" 10 11).2 in
  allowed (checkLimit L "s1" "session" 10 11).1 = false ∧
  (∀ t, t <= 11 + 300000 → isBlocked L' "s1" t = (true, L')) ∧
  (∀ t, 11 + 300000 < t →
     isBlocked L' "s1" t
     = (false, mkLimiter (limits L') (trackers L') (delete "s1" (blocklist L')))) ∧
  (∀ t, trackers (isBlocked L' "s1" t).2 = trackers L').
Proof.
  split; [reflexivity|].
  apply (blocked_through_cooldown
           (mkLimiter defaultLimits (mkTrackers ∅ {["s1" := mkRecord 50 0 50]} ∅) ∅)
           "s1" "session" ScSession 10 11
           (checkLimit (mkLimiter defaultLimits
                          (mkTrackers ∅ {["s1" := mkRecord 50 0 50]} ∅) ∅)
                       "s1" "session" 10 11).1).
  - reflexivity.
  - reflexivity.
  - reflexivity.
  - lia.
Defined.

(** X2. Adjusting the limits to the load spares the open windows: a call in
    a session window that is still open is decided by the limit the window
    was opened with.  A window opened after the adjustment gets 25 requests
    under high load (cpu above 80 or memory above 85) and 50 otherwise; the
    window durations and the per-address limit are never changed. *)
Theorem load_adjustment_spares_open_windows (L : Limiter) (cpu mem : Q)
    (id : string) (rec : WindowRecord) (now now' : Z) :
  bySession (trackers L) !! id = Some rec →
  now - firstRequest rec <= l_window (perSession (limits L)) →
  let La := adjustLimitsBasedOnLoad L cpu mem in
  allowed (checkLimit La id "session" now now').1 = (requests rec + 1 <=? dynamic rec) ∧
  (∀ id2, bySession (trackers L) !! id2 = None →
     bySession (trackers (checkLimit La id2 "session" now now').2) !! id2
     = Some (mkRecord 1 now (if (negb (Qle_bool cpu 80) || negb (Qle_bool mem 85))%bool
                             then 25 else 50))) ∧
  perIP (limits La) = perIP (limits L) ∧
  l_window (perSession (limits La)) = l_window (perSession (limits L)) ∧
  l_window (perUser (limits La)) = l_window (perUser (limits L)).
Proof.
  intros Hrec Hopen La.
  assert (Htr : trackers La = trackers L) by reflexivity.
  assert (Hwin : l_window (perSession (limits La)) = l_window (perSession (limits L))).
  { unfold La, adjustLimitsBasedOnLoad. by destruct (negb _ || negb _)%bool. }
  assert (Hreq : l_requests (perSession (limits La))
                 = if (negb (Qle_bool cpu 80) || negb (Qle_bool mem 85))%bool then 25 else 50).
  { unfold La, adjustLimitsBasedOnLoad. by destruct (negb _ || negb _)%bool. }
  assert (Hip : perIP (limits La) = perIP (limits L)).
  { unfold La, adjustLimitsBasedOnLoad. by destruct (negb _ || negb _)%bool. }
  assert (Hus : l_window (perUser (limits La)) = l_window (perUser (limits L))).
  { unfold La, adjustLimitsBasedOnLoad. by destruct (negb _ || negb _)%bool. }
  clearbody La.
  split; [|split; [|split; [|split]]].
  - destruct (checkLimit La id "session" now now') as [r L1] eqn:E.
    pose proof (checkLimit_tracked La id "session" ScSession now now' resolve_session _ _ E) as H.
    cbv zeta in H. simpl trackerOf in H. simpl limitOf in H.
    rewrite Htr, Hrec, Hwin in H.
    assert (Hin : (now - firstRequest rec >? l_window (perSession (limits L))) = false)
      by (rewrite Z.gtb_ltb; apply Z.ltb_ge; lia).
    rewrite Hin in H. destruct H as (Hal & _). exact Hal.
  - intros id2 Hfresh.
    destruct (checkLimit La id2 "session" now now') as [r L1] eqn:E.
    pose proof (checkLimit_tracked La id2 "session" ScSession now now' resolve_session _ _ E) as H.
    cbv zeta in H. simpl trackerOf in H. simpl limitOf in H.
    rewrite Htr, Hfresh, Hreq in H. destruct H as (_ & _ & _ & Htr1 & _).
    cbn [snd]. rewrite Htr1. apply lookup_insert_eq.
  - exact Hip.
  - exact Hwin.
  - exact Hus.
Qed.

Lemma load_adjustment_spares_open_windows_witness :
  let L := mkLimiter defaultLimits (mkTrackers ∅ {["s1" := mkRecord 30 0 50]} ∅) ∅ in
  let La := adjustLimitsBasedOnLoad L 95 40 in
  allowed (checkLimit La "s1" "session" 10 10).1 = true ∧
  (∀ id2, bySession (trackers L) !! id2 = None →
     bySession (trackers (checkLimit La id2 "session" 10 10).2) !! id2
     = Some (mkRecord 1 10 25)) ∧
  perIP (limits La) = perIP (limits L) ∧
  l_window (perSession (limits La)) = l_window (perSession (limits L)) ∧
  l_window (perUser (limits La)) = l_window (perUser (limits L)).
Proof.
  apply (load_adjustment_spares_open_windows
           (mkLimiter defaultLimits (mkTrackers ∅ {["s1" := mkRecord 30 0 50]} ∅) ∅)
           95 40 "s1" (mkRecord 30 0 50) 10 10).
  - vm_compute. reflexivity.
  - vm_compute. discriminate.
Defined.

Lemma upperChar_is c u :
  (65 <= nat_of_ascii u <= 90)%nat →
  upperChar c = u ↔ c = u ∨ c = ascii_of_nat (nat_of_ascii u + 32).
Proof.
  intros Hu.
  destruct u as [[] [] [] [] [] [] [] []]; vm_compute in Hu; try lia;
    destruct c as [[] [] [] [] [] [] [] []]; vm_compute;
    (split; [intros H; first [discriminate H | by left | by right]
            | intros [H|H]; first [discriminate H | reflexivity]]).
Qed.

Lemma capitalize_is type c rest :
  (65 <= nat_of_ascii c <= 90)%nat →
  capitalize type = String c rest ↔
  type = String c rest ∨ type = String (ascii_of_nat (nat_of_ascii c + 32)) rest.
Proof.
  intros Hc. destruct type as [|a t]; simpl.
  - split; [discriminate | intros [H|H]; discriminate].
  - split.
    + intros [= Ha ->]. apply (upperChar_is a c Hc) in Ha as [->| ->]; auto.
    + intros [[= -> ->]|[= -> ->]]; f_equal; apply (upperChar_is _ c Hc); auto.
Qed.

(** X3. The scope names.  For a [type] of ASCII characters, a call is
    counted only when [type] is "user" or "User", "session" or "Session",
    "IP" or "iP"; for every other such name, the lower-case "ip" included, the
    call is allowed with an unlimited remaining count and the limiter is left
    exactly as it was. *)
Theorem tracked_scope_names (type : string) :
  Js.isAscii type = true →
  (resolve type = Some ScUser ↔ type = "User" ∨ type = "user") ∧
  (resolve type = Some ScSession ↔ type = "Session" ∨ type = "session") ∧
  (resolve type = Some ScIP ↔ type = "IP" ∨ type = "iP") ∧
  resolve "ip" = None ∧
  (resolve type = None →
   ∀ L id now now', checkLimit L id type now now' = (mkResult true Infinite None, L)).
Proof.
  intros _.
  assert (HU := capitalize_is type "U" "ser" ltac:(vm_compute; lia)).
  assert (HS := capitalize_is type "S" "ession" ltac:(vm_compute; lia)).
  assert (HI := capitalize_is type "I" "P" ltac:(vm_compute; lia)).
  change (ascii_of_nat (nat_of_ascii "U" + 32)) with "u"%char in HU.
  change (ascii_of_nat (nat_of_ascii "S" + 32)) with "s"%char in HS.
  change (ascii_of_nat (nat_of_ascii "I" + 32)) with "i"%char in HI.
  rewrite <- HU, <- HS, <- HI. clear HU HS HI.
  split; [|split; [|split; [|split]]].
  1-3: unfold resolve;
    destruct (String.eqb_spec (capitalize type) "User") as [EU|EU];
      [|destruct (String.eqb_spec (capitalize type) "Session") as [ES|ES];
        [|destruct (String.eqb_spec (capitalize type) "IP") as [EI|EI]]];
    split; intros H; congruence.
  - reflexivity.
  - intros Hnone L id now now'. unfold checkLimit. by rewrite Hnone.
Qed.

Lemma tracked_scope_names_witness :
  Js.isAscii "ip" = true ∧
  (resolve "ip" = Some ScUser ↔ "ip" = "User" ∨ "ip" = "user") ∧
  (resolve "ip" = Some ScSession ↔ "ip" = "Session" ∨ "ip" = "session") ∧
  (resolve "ip" = Some ScIP ↔ "ip" = "IP" ∨ "ip" = "iP") ∧
  resolve "ip" = None ∧
  (resolve "ip" = None →
   ∀ L id now now', checkLimit L id "ip" now now' = (mkResult true Infinite None, L)).
Proof.
  split; [reflexivity|]. apply (tracked_scope_names "ip"). reflexivity.
Defined.

(** X4. A call touches one identity in one scope only: the limits, the
    records of every other identity, the trackers of the other two scopes and
    the blocklist entries of every other identity are what they were. *)
Theorem checkLimit_frame (L : Limiter) (id type : string) (sc : Scope) (now now' : Z)
    (r : CheckResult) (L' : Limiter) :
  resolve type = Some sc →
  checkLimit L id type now now' = (r, L') →
  limits L' = limits L ∧
  (∀ id2, id2 ≠ id →
     trackerOf sc (trackers L') !! id2 = trackerOf sc (trackers L) !! id2) ∧
  (∀ sc2, sc2 ≠ sc → trackerOf sc2 (trackers L') = trackerOf sc2 (trackers L)) ∧
  (∀ id2, id2 ≠ id → blocklist L' !! id2 = blocklist L !! id2).
Proof.
  intros Hsc Hcall.
  pose proof (checkLimit_tracked L id type sc now now' Hsc _ _ Hcall) as H.
  cbv zeta in H. destruct H as (_ & _ & Hlim & Htr & Hbl).
  split; [exact Hlim|]. split; [|split].
  - intros id2 Hne. rewrite Htr. by apply lookup_insert_ne.
  - intros sc2 Hne. unfold checkLimit in Hcall. rewrite Hsc in Hcall. cbv zeta in Hcall.
    match type of Hcall with
    | (_, if ?b then _ else _) = _ => destruct b
    end; injection Hcall as _ <-; cbn [trackers addToBlocklist];
      by apply trackerOf_setTracker_ne.
  - intros id2 Hne. rewrite Hbl.
    match goal with |- (if ?b then _ else _) !! _ = _ => destruct b end;
      [reflexivity | by apply lookup_insert_ne].
Qed.

Lemma checkLimit_frame_witness :
  let L := mkLimiter defaultLimits
             (mkTrackers {["s1" := mkRecord 7 0 100]} {["s2" := mkRecord 3 0 50]} ∅)
             {["s2" := 500]} in
  let L' := (checkLimit L "s1" "session" 10 11).2 in
  limits L' = limits L ∧
  (∀ id2, id2 ≠ "s1" → bySession (trackers L') !! id2 = bySession (trackers L) !! id2) ∧
  (∀ sc2, sc2 ≠ ScSession → trackerOf sc2 (trackers L') = trackerOf sc2 (trackers L)) ∧
  (∀ id2, id2 ≠ "s1" → blocklist L' !! id2 = blocklist L !! id2).
Proof.
  apply (checkLimit_frame
           (mkLimiter defaultLimits
              (mkTrackers {["s1" := mkRecord 7 0 100]} {["s2" := mkRecord 3 0 50]} ∅)
              {["s2" := 500]})
           "s1" "session" ScSession 10 11
           (checkLimit (mkLimiter defaultLimits
              (mkTrackers {["s1" := mkRecord 7 0 100]} {["s2" := mkRecord 3 0 50]} ∅)
              {["s2" := 500]}) "s1" "session" 10 11).1).
  - reflexivity.
  - reflexivity.
Defined.

(** X5. The remaining count is exact.  A denied call reports 0.  After an
    allowed call that reports [n] remaining, the next [n] calls of the same
    identity in the same window are all allowed and the call after them, still
    in the window, is denied. *)
Theorem remaining_is_exact (L : Limiter) (id type : string) (sc : Scope) (now now' : Z)
    (r : CheckResult) (L' : Limiter) :
  resolve type = Some sc →
  checkLimit L id type now now' = (r, L') →
  ∃ n rec',
    remaining r = Finite n ∧ 0 <= n ∧
    trackerOf sc (trackers L') !! id = Some rec' ∧
    (allowed r = false → n = 0) ∧
    (allowed r = true →
     ∀ (clock : list (Z * Z)) (t t' : Z),
       Z.of_nat (length clock) = n →
       Forall (λ c, c.1 - firstRequest rec' <= l_window (limitOf sc (limits L))) clock →
       t - firstRequest rec' <= l_window (limitOf sc (limits L)) →
       Forall (λ x, allowed x = true) (checkMany L' id type clock).1 ∧
       allowed (checkLimit (checkMany L' id type clock).2 id type t t').1 = false).
Proof.
  intros Hsc Hcall.
  pose proof (checkLimit_tracked L id type sc now now' Hsc _ _ Hcall) as H.
  cbv zeta in H. destruct H as (Hal & _ & Hlim & Htr & _).
  assert (Hrem : ∃ rec', trackerOf sc (trackers L') !! id = Some rec' ∧
                         remaining r = Finite (Z.max 0 (dynamic rec' - requests rec')) ∧
                         allowed r = (requests rec' <=? dynamic rec')).
  { eexists. split; [rewrite Htr; apply lookup_insert_eq|].
    split; [|exact Hal].
    unfold checkLimit in Hcall. rewrite Hsc in Hcall. cbv zeta in Hcall.
    injection Hcall as <- _. reflexivity. }
  clear Hal Htr. destruct Hrem as (rec' & Hrec & Hrem & Hal).
  exists (Z.max 0 (dynamic rec' - requests rec')), rec'.
  split; [exact Hrem|]. split; [lia|]. split; [exact Hrec|]. split.
  - intros Hden. rewrite Hden in Hal. symmetry in Hal. apply Z.leb_gt in Hal. lia.
  - intros Hok clock t t' Hlen Hwin Ht. rewrite Hok in Hal. symmetry in Hal.
    apply Z.leb_le in Hal.
    destruct rec' as [n0 t0 d]. simpl in *.
    pose proof (checkMany_in_window id type sc clock L' n0 t0 d Hsc Hrec) as Hrun.
    rewrite Hlim in Hrun. specialize (Hrun Hwin).
    destruct (checkMany L' id type clock) as [rs L2]. cbn [fst snd].
    destruct Hrun as (_ & Hlim2 & Hrec2 & Hall).
    split; [apply Hall; lia|].
    destruct (checkLimit L2 id type t t') as [r3 L3] eqn:E3. cbn [fst].
    pose proof (checkLimit_tracked L2 id type sc t t' Hsc _ _ E3) as H3.
    cbv zeta in H3. rewrite Hrec2, Hlim2 in H3. cbn [firstRequest] in H3.
    assert (Hin : (t - t0 >? l_window (limitOf sc (limits L))) = false)
      by (rewrite Z.gtb_ltb; apply Z.ltb_ge; lia).
    rewrite Hin in H3. cbn [requests dynamic] in H3. destruct H3 as (Hal3 & _).
    rewrite Hal3. apply Z.leb_gt. lia.
Qed.

Lemma remaining_is_exact_witness :
  let L := mkLimiter defaultLimits (mkTrackers ∅ {["s1" := mkRecord 47 0 50]} ∅) ∅ in
  let r := (checkLimit L "s1" "session" 10 11).1 in
  let L' := (checkLimit L "s1" "session" 10 11).2 in
  allowed r = true ∧ remaining r = Finite 2 ∧
  ∃ n rec',
    remaining r = Finite n ∧ 0 <= n ∧
    bySession (trackers L') !! "s1" = Some rec' ∧
    (allowed r = false → n = 0) ∧
    (allowed r = true →
     ∀ (clock : list (Z * Z)) (t t' : Z),
       Z.of_nat (length clock) = n →
       Forall (λ c, c.1 - firstRequest rec' <= hour) clock →
       t - firstRequest rec' <= hour →
       Forall (λ x, allowed x = true) (checkMany L' "s1" "session" clock).1 ∧
       allowed (checkLimit (checkMany L' "s1" "session" clock).2 "s1" "session" t t').1 = false).
Proof.
  split; [reflexivity|]. split; [reflexivity|].
  apply (remaining_is_exact
           (mkLimiter defaultLimits (mkTrackers ∅ {["s1" := mkRecord 47 0 50]} ∅) ∅)
           "s1" "session" ScSession 10 11).
  - reflexivity.
  - reflexivity.
Defined.

(** X6. The sweep keeps exactly the live entries: a session window is
    there afterwards iff it was there and its duration has not elapsed, a
    blocklist entry iff it was there and its unblock instant is not past.
    The limits are untouched. *)
Theorem cleanup_keeps_exactly_live (L : Limiter) (now : Z) :
  (∀ id r, bySession (trackers (cleanup L now)) !! id = Some r ↔
           bySession (trackers L) !! id = Some r ∧
           now - firstRequest r <= l_window (perSession (limits L))) ∧
  (∀ id b, blocklist (cleanup L now) !! id = Some b ↔
           blocklist L !! id = Some b ∧ now <= b) ∧
  limits (cleanup L now) = limits L.
Proof.
  unfold cleanup. cbn [trackers bySession blocklist limits].
  split; [|split; [|reflexivity]].
  - intros id r. rewrite map_lookup_filter_Some. cbn [snd]. split; intros [? ?]; split; auto; lia.
  - intros id b. rewrite map_lookup_filter_Some. cbn [snd]. split; intros [? ?]; split; auto; lia.
Qed.
End RateLimiterMore.

Section CacheMore.
Context {V : Type}.

Lemma CacheManager_get_set_live (cache : gmap string (CacheManager.Entry V))
    (key : string) (v : V) (ttl t now : Z) :
  now <= t + ttl * 1000 →
  CacheManager.get (CacheManager.set cache key v ttl t) key now
  = (Some v, CacheManager.set cache key v ttl t).
Proof.
  intros H. unfold CacheManager.get, CacheManager.set.
  rewrite lookup_insert_eq. cbn [CacheManager.expiryTime CacheManager.value].
  assert (Hgt : (now >? t + ttl * 1000) = false) by (rewrite Z.gtb_ltb; apply Z.ltb_ge; lia).
  by rewrite Hgt.
Qed.

(** X7. Round trip of the process-local cache: a value stored at instant
    [t] with a time to live of [ttl] seconds is returned by every [get] up to
    and including the instant [t + 1000 * ttl], which leaves the store as it
    is; a [get] after that instant returns nothing and removes the entry. *)
Theorem CacheManager_round_trip (cache : gmap string (CacheManager.Entry V))
    (key : string) (v : V) (ttl t now : Z) :
  let stored := CacheManager.set cache key v ttl t in
  (now <= t + ttl * 1000 → CacheManager.get stored key now = (Some v, stored)) ∧
  (t + ttl * 1000 < now → CacheManager.get stored key now = (None, delete key cache)).
Proof.
  intros stored. subst stored. split; [apply CacheManager_get_set_live|].
  unfold CacheManager.get, CacheManager.set.
  rewrite lookup_insert_eq. cbn [CacheManager.expiryTime CacheManager.value]. intros H.
  - assert (Hgt : (now >? t + ttl * 1000) = true) by (rewrite Z.gtb_ltb; apply Z.ltb_lt; lia).
    rewrite Hgt. by rewrite delete_insert_eq.
Qed.

(** X8. Keys of the process-local cache do not interfere: neither a [set]
    nor a [get] of one key, evicting or not, changes what is stored under
    another key or what a [get] of another key returns. *)
Theorem CacheManager_keys_independent (cache : gmap string (CacheManager.Entry V))
    (key other : string) (v : V) (ttl t now : Z) :
  key ≠ other →
  CacheManager.set cache key v ttl t !! other = cache !! other ∧
  (CacheManager.get cache key now).2 !! other = cache !! other ∧
  (CacheManager.get (CacheManager.set cache key v ttl t) other now).1
    = (CacheManager.get cache other now).1 ∧
  (CacheManager.get (CacheManager.get cache key t).2 other now).1
    = (CacheManager.get cache other now).1.
Proof.
  intros Hne.
  assert (Hset : CacheManager.set cache key v ttl t !! other = cache !! other)
    by (unfold CacheManager.set; by apply lookup_insert_ne).
  assert (Hget : ∀ at_, (CacheManager.get cache key at_).2 !! other = cache !! other).
  { intros at_. unfold CacheManager.get. destruct (cache !! key) as [e|]; [|done].
    destruct (at_ >? CacheManager.expiryTime e); [by apply lookup_delete_ne | done]. }
  assert (Hcongr : ∀ c1 c2 : gmap string (CacheManager.Entry V),
            c1 !! other = c2 !! other →
            (CacheManager.get c1 other now).1 = (CacheManager.get c2 other now).1).
  { intros c1 c2 Heq. unfold CacheManager.get. rewrite Heq.
    destruct (c2 !! other) as [e|]; [|done]. by destruct (now >? _). }
  split; [exact Hset|]. split; [apply Hget|]. split; apply Hcongr; [exact Hset | apply Hget].
Qed.

Variable parse : string → option V.

(** X9. Round trip of the two-tier cache without a shared tier: a value
    stored at instant [t] with a time to live of [ttl] seconds is returned by
    a [get] strictly before the instant [t + 1000 * ttl] and by no [get] from
    that instant on. *)
Theorem DistributedCache_round_trip (st : DistributedCache.State V)
    (key : string) (v : V) (ttl t now : Z) (ok : bool) :
  DistributedCache.redis st = None →
  (DistributedCache.get parse (DistributedCache.set st key v ttl t ok) key now).1
  = if now <? t + ttl * 1000 then Some v else None.
Proof.
  intros Hlocal. unfold DistributedCache.set. rewrite Hlocal.
  unfold DistributedCache.get. cbn [DistributedCache.redis fst].
  unfold DistributedCache.getLocal. cbn [DistributedCache.localCache].
  rewrite lookup_insert_eq. cbn [DistributedCache.expiresAt DistributedCache.value].
  by rewrite Z.gtb_ltb.
Qed.
End CacheMore.

Lemma CacheManager_keys_independent_witness :
  let cache : gmap string (CacheManager.Entry string) :=
    {["news_latest" := CacheManager.mkEntry "headlines" 500]} in
  CacheManager.set cache "weather_paris" "18C" 1800 0 !! "news_latest" = cache !! "news_latest" ∧
  (CacheManager.get cache "weather_paris" 100).2 !! "news_latest" = cache !! "news_latest" ∧
  (CacheManager.get (CacheManager.set cache "weather_paris" "18C" 1800 0) "news_latest" 100).1
    = (CacheManager.get cache "news_latest" 100).1 ∧
  (CacheManager.get (CacheManager.get cache "weather_paris" 0).2 "news_latest" 100).1
    = (CacheManager.get cache "news_latest" 100).1.
Proof.
  apply (CacheManager_keys_independent
           ({["news_latest" := CacheManager.mkEntry "headlines" 500]}
              : gmap string (CacheManager.Entry string))
           "weather_paris" "news_latest" "18C" 1800 0 100).
  discriminate.
Defined.

Lemma DistributedCache_round_trip_witness :
  let st : DistributedCache.State string := DistributedCache.mkState None ∅ in
  (DistributedCache.get Some (DistributedCache.set st "k" "v" 1 0 true) "k" 999).1 = Some "v" ∧
  (DistributedCache.get Some (DistributedCache.set st "k" "v" 1 0 true) "k" 1000).1 = None.
Proof.
  split.
  - exact (DistributedCache_round_trip Some (DistributedCache.mkState None ∅)
             "k" "v" 1 0 999 true eq_refl).
  - exact (DistributedCache_round_trip Some (DistributedCache.mkState None ∅)
             "k" "v" 1 0 1000 true eq_refl).
Defined.

Section RealtimeMore.
Import Js Realtime.

Lemma CacheManager_get_fresh {V} (cache : gmap string (CacheManager.Entry V)) key now :
  (CacheManager.get cache key now).1 = None →
  (CacheManager.get cache key now).2 !! key = None ∧
  ∀ k, k ≠ key → (CacheManager.get cache key now).2 !! k = cache !! k.
Proof.
  unfold CacheManager.get. destruct (cache !! key) as [e|] eqn:He.
  - destruct (now >? CacheManager.expiryTime e); [|discriminate].
    intros _. cbn [snd]. split; [apply lookup_delete_eq|].
    intros k Hk. by apply lookup_delete_ne.
  - intros _. cbn [snd]. auto.
Qed.

(** X10. Weather is served from the cache for thirty minutes.  When a fetch
    went upstream and succeeded, every fetch for a city with the same
    lower-case name whose cache read happens no later than 1800 seconds after
    the write returns the very same data (timestamp and [cached: false]
    included) and leaves the cache as it is, whatever the upstream services
    would answer. *)
Theorem fetchWeather_served_from_cache
    (cache cache1 : gmap string (CacheManager.Entry Cached)) (city city' : string)
    (geocode geocode' : string → GeoReply) (forecast forecast' : Location → option Current)
    (clk clk' : Clock) (d : Cached) :
  (CacheManager.get cache (String.append "weather_" (toLowerCase city)) (atGet clk)).1 = None →
  fetchWeather cache city geocode forecast clk = (Got d, cache1) →
  toLowerCase city' = toLowerCase city →
  atGet clk' <= atSet clk + 1800 * 1000 →
  fetchWeather cache1 city' geocode' forecast' clk' = (Got d, cache1).
Proof.
  intros Hmiss Hfetch Hcity Hlive. unfold fetchWeather in *. rewrite Hcity.
  destruct (CacheManager.get cache _ (atGet clk)) as [[v|] c1]; [discriminate|].
  destruct (geocode city) as [|[[|location rest]|]]; try discriminate.
  destruct (forecast location) as [weather|]; [|discriminate].
  injection Hfetch as <- <-.
  match goal with |- context [CacheManager.set c1 ?k ?v 1800 ?t] =>
    pose proof (@CacheManager_get_set_live Cached c1 k v 1800 t (atGet clk') Hlive) as Hhit
  end.
  by rewrite Hhit.
Qed.

(** X11. A failed weather fetch is not cached: when [fetchWeather] answers
    with an error (unknown city, or an upstream request that fails), the cache
    holds no entry for the city afterwards and every other key is
    untouched. *)
Theorem fetchWeather_failure_not_cached
    (cache cache1 : gmap string (CacheManager.Entry Cached)) (city : string)
    (geocode : string → GeoReply) (forecast : Location → option Current)
    (clk : Clock) (error : string) :
  fetchWeather cache city geocode forecast clk = (Failed error, cache1) →
  cache1 !! String.append "weather_" (toLowerCase city) = None ∧
  ∀ k, k ≠ String.append "weather_" (toLowerCase city) → cache1 !! k = cache !! k.
Proof.
  unfold fetchWeather.
  pose proof (CacheManager_get_fresh cache (String.append "weather_" (toLowerCase city))
                (atGet clk)) as Hfresh.
  destruct (CacheManager.get cache _ (atGet clk)) as [[v|] c1]; [discriminate|].
  specialize (Hfresh eq_refl). cbn [snd] in Hfresh.
  destruct (geocode city) as [|[[|location rest]|]].
  - intros [= _ <-]. exact Hfresh.
  - intros [= _ <-]. exact Hfresh.
  - destruct (forecast location); [discriminate|]. intros [= _ <-]. exact Hfresh.
  - intros [= _ <-]. exact Hfresh.
Qed.

(** X12. Exchange rates are cached for six hours under the exact base
    currency: after a fetch that went upstream and succeeded, a fetch for the
    same base whose cache read happens no later than 21600 seconds after the
    write returns the same data without asking upstream; and a fetch that
    fails leaves no entry for the base. *)
Theorem fetchExchangeRates_caching
    (cache cache1 : gmap string (CacheManager.Entry Cached)) (baseCurrency : string)
    (latest latest' : string → option (string * list (string * Q)))
    (clk clk' : Clock) (out : Outcome) :
  (CacheManager.get cache (String.append "currency_" baseCurrency) (atGet clk)).1 = None →
  fetchExchangeRates cache baseCurrency latest clk = (out, cache1) →
  match out with
  | Got d =>
      atGet clk' <= atSet clk + 21600 * 1000 →
      fetchExchangeRates cache1 baseCurrency latest' clk' = (Got d, cache1)
  | Failed _ =>
      latest baseCurrency = None ∧
      cache1 !! String.append "currency_" baseCurrency = None
  end.
Proof.
  intros Hmiss Hfetch. unfold fetchExchangeRates in *.
  pose proof (CacheManager_get_fresh cache (String.append "currency_" baseCurrency)
                (atGet clk) Hmiss) as [Hfresh _].
  destruct (CacheManager.get cache _ (atGet clk)) as [[v|] c1]; [discriminate|].
  cbn [snd] in Hfresh.
  destruct (latest baseCurrency) as [[b rs]|].
  - injection Hfetch as <- <-. intros Hlive.
    match goal with |- context [CacheManager.set c1 ?k ?v 21600 ?t] =>
      pose proof (@CacheManager_get_set_live Cached c1 k v 21600 t (atGet clk') Hlive) as Hhit
    end.
    by rewrite Hhit.
  - injection Hfetch as <- <-. auto.
Qed.

Lemma fetchWeather_served_from_cache_witness :
  let first := fetchWeather ∅ "Paris" geoParis forecastMild (mkClock 0 1 2) in
  first.2 !! "weather_paris" = Some (CacheManager.mkEntry (WeatherEntry parisWeather) 1800002) ∧
  fetchWeather first.2 "PARIS" (λ _, GeoFailed) (λ _, None) (mkClock 1800002 1800003 1800004)
  = (Got (WeatherEntry parisWeather), first.2).
Proof.
  split; [vm_compute; reflexivity|].
  apply (fetchWeather_served_from_cache ∅ _ "Paris" "PARIS" geoParis (λ _, GeoFailed)
           forecastMild (λ _, None) (mkClock 0 1 2) (mkClock 1800002 1800003 1800004)).
  - reflexivity.
  - vm_compute. reflexivity.
  - reflexivity.
  - vm_compute. discriminate.
Defined.

Lemma fetchWeather_failure_not_cached_witness :
  let after := (fetchWeather ∅ "Atlantis" (λ _, GeoAnswer (Some [])) forecastMild
                  (mkClock 0 1 2)).2 in
  after !! "weather_atlantis" = None ∧
  ∀ k, k ≠ "weather_atlantis" → after !! k = (∅ : gmap string (CacheManager.Entry Cached)) !! k.
Proof.
  apply (fetchWeather_failure_not_cached ∅ _ "Atlantis" (λ _, GeoAnswer (Some [])) forecastMild
           (mkClock 0 1 2) "City 'Atlantis' not found").
  vm_compute. reflexivity.
Defined.

Lemma fetchExchangeRates_caching_witness :
  let first := fetchExchangeRates ∅ "USD" latestUsd (mkClock 0 1 2) in
  first.1 = Got (RatesEntry (mkRates "USD" [("EUR", 9 # 10)] 1 false)) ∧
  fetchExchangeRates first.2 "USD" (λ _, None) (mkClock 21600002 21600003 21600004)
  = (first.1, first.2).
Proof.
  split; [vm_compute; reflexivity|].
  refine (fetchExchangeRates_caching ∅ _ "USD" latestUsd (λ _, None) (mkClock 0 1 2)
            (mkClock 21600002 21600003 21600004)
            (Got (RatesEntry (mkRates "USD" [("EUR", 9 # 10)] 1 false))) _ _ _).
  - reflexivity.
  - vm_compute. reflexivity.
  - vm_compute. discriminate.
Defined.
End RealtimeMore.

Section ResponseMergerMore.
Import ResponseMerger.

Lemma map_source_supplementary sources p order :
  map source (supplementary sources (Some p) order)
  = List.filter (λ s, negb (Source_eqb s p) && succeeded sources s)%bool order.
Proof.
  induction order as [|s rest IH]; [reflexivity|].
  cbn [supplementary List.filter]. unfold succeeded at 1.
  destruct (sources s) as [r|]; [|by rewrite andb_false_r].
  destruct (negb (Source_eqb s p) && success r)%bool; cbn [map]; by rewrite IH.
Qed.

Lemma filter_after_primary sources order p :
  NoDup order →
  List.find (succeeded sources) order = Some p →
  List.filter (succeeded sources) order
  = p :: List.filter (λ s, negb (Source_eqb s p) && succeeded sources s)%bool order.
Proof.
  intros Hnd. induction order as [|s rest IH]; [discriminate|].
  apply NoDup_cons in Hnd as [Hnotin Hnd]. cbn [List.find List.filter].
  destruct (succeeded sources s) eqn:Hs.
  - intros [= ->].
    assert (Hpp : Source_eqb p p = true) by (by destruct p).
    rewrite Hpp. cbn [negb andb]. f_equal.
    apply filter_ext_in. intros a Ha.
    destruct (Source_eqb a p) eqn:E; [|reflexivity].
    apply Source_eqb_eq in E. subst a. apply list_elem_of_In in Ha. contradiction.
  - intros Hfind. rewrite andb_false_r. by apply IH.
Qed.

Lemma filter_none_found {A} (f : A → bool) (l : list A) :
  List.find f l = None → List.filter f l = [].
Proof.
  induction l as [|x l IH]; [reflexivity|]. cbn [List.find List.filter].
  destruct (f x); [discriminate | exact IH].
Qed.

Lemma priorityOrder_NoDup intent : NoDup (priorityOrder intent).
Proof.
  unfold priorityOrder.
  destruct (String.eqb intent "realtime");
    [|destruct (String.eqb intent "rag" || String.eqb intent "pdf")%bool];
    repeat (apply NoDup_cons_2;
            [rewrite ?elem_of_cons, elem_of_nil; intuition discriminate|]);
    apply NoDup_nil_2.
Qed.

(** X13. The merger uses exactly the successful sources, each once, in the
    priority order of the intent: [usedSources] is the priority list
    restricted to the sources that succeeded, and [sourceDetails] has one
    entry per used source in the same order.  The intent therefore changes
    the order of the used sources but never which ones are used. *)
Theorem merge_uses_exactly_successful (sources : Sources) (query intent : string) :
  let m := mergeResponses sources query intent in
  usedSources m = List.filter (succeeded sources) (priorityOrder intent) ∧
  map source (sourceDetails m) = usedSources m ∧
  (∀ s, In s (usedSources m) ↔ succeeded sources s = true) ∧
  (∀ query' intent', ∀ s,
     In s (usedSources m) ↔ In s (usedSources (mergeResponses sources query' intent'))).
Proof.
  assert (Hused : ∀ q i, usedSources (mergeResponses sources q i)
                         = List.filter (succeeded sources) (priorityOrder i)
                         ∧ map source (sourceDetails (mergeResponses sources q i))
                           = usedSources (mergeResponses sources q i)).
  { intros q i. unfold mergeResponses. rewrite findPrimary_find.
    destruct (List.find (succeeded sources) (priorityOrder i)) as [p|] eqn:Hfind.
    - destruct (find_succeeded _ _ _ Hfind) as (r & Hr & Hok). rewrite Hr.
      cbn [fmap option_fmap option_map fst]. rewrite Hr.
      cbn [usedSources sourceDetails app map source].
      rewrite map_source_supplementary.
      by rewrite (filter_after_primary sources _ p (priorityOrder_NoDup i) Hfind).
    - cbn [fmap option_fmap option_map usedSources sourceDetails app].
      rewrite (filter_none_found _ _ Hfind). rewrite supplementary_none; [done|].
      intros s. apply (find_none _ _ Hfind). apply priorityOrder_complete. }
  assert (Hin : ∀ q i s, In s (usedSources (mergeResponses sources q i))
                         ↔ succeeded sources s = true).
  { intros q i s. destruct (Hused q i) as [-> _]. rewrite filter_In.
    pose proof (priorityOrder_complete i s). tauto. }
  intros m. subst m. destruct (Hused query intent) as [H1 H2].
  split; [exact H1|]. split; [exact H2|]. split; [apply Hin|].
  intros q' i' s. by rewrite !Hin.
Qed.
End ResponseMergerMore.

Section ClassifierMore.
Import Js EntityRecognition IntentModel IntentDetector.

Lemma countOf_nonneg xs : (0 <= countOf xs)%Q.
Proof.
  unfold countOf. change 0%Q with (inject_Z 0). rewrite <- Zle_Qle. lia.
Qed.

Lemma scoreConfidenceByEntities_bounds entities :
  (5 # 10 <= scoreConfidenceByEntities entities <= 95 # 100)%Q.
Proof.
  unfold scoreConfidenceByEntities.
  pose proof (countOf_nonneg (locations entities)).
  pose proof (countOf_nonneg (organizations entities)).
  pose proof (countOf_nonneg (dates entities)).
  pose proof (countOf_nonneg (currencies entities)).
  pose proof (countOf_nonneg (numbers entities)).
  pose proof (countOf_nonneg (topics entities)).
  set (cnt := (countOf (locations entities) + countOf (organizations entities)
               + countOf (dates entities) + countOf (currencies entities)
               + countOf (numbers entities) + countOf (topics entities))%Q).
  assert (Hcnt : (0 <= cnt)%Q) by (unfold cnt; lra).
  assert (Hlo : (0 <= Qmin (cnt * (5 # 100)) (3 # 10))%Q) by (apply Q.min_glb; lra).
  assert (Hhi : (Qmin (cnt * (5 # 100)) (3 # 10) <= 3 # 10)%Q) by apply Q.le_min_r.
  generalize dependent (Qmin (cnt * (5 # 100)) (3 # 10)). intros m Hlo Hhi.
  split.
  - apply Q.min_glb; [|lra].
    destruct (0 <? length (locations entities))%nat, (0 <? length (dates entities))%nat,
             (0 <? length (currencies entities))%nat; lra.
  - eapply Qle_trans; [apply Q.le_min_l|].
    destruct (0 <? length (locations entities))%nat, (0 <? length (dates entities))%nat,
             (0 <? length (currencies entities))%nat; lra.
Qed.

Lemma countOf_cons (x : string) xs : (1 <= countOf (x :: xs))%Q.
Proof.
  unfold countOf. change 1%Q with (inject_Z 1). rewrite <- Zle_Qle. cbn [length]. lia.
Qed.

(** One entity is enough to lift the score above the base. *)
Lemma scoreConfidenceByEntities_found entities :
  (1 <= countOf (locations entities) + countOf (organizations entities)
        + countOf (dates entities) + countOf (currencies entities)
        + countOf (numbers entities) + countOf (topics entities))%Q →
  (55 # 100 <= scoreConfidenceByEntities entities)%Q.
Proof.
  unfold scoreConfidenceByEntities.
  set (cnt := (countOf (locations entities) + countOf (organizations entities)
               + countOf (dates entities) + countOf (currencies entities)
               + countOf (numbers entities) + countOf (topics entities))%Q).
  intros Hcnt.
  assert (Hlo : (5 # 100 <= Qmin (cnt * (5 # 100)) (3 # 10))%Q) by (apply Q.min_glb; lra).
  generalize dependent (Qmin (cnt * (5 # 100)) (3 # 10)). intros m Hlo.
  apply Q.min_glb; [|lra].
  destruct (0 <? length (locations entities))%nat, (0 <? length (dates entities))%nat,
           (0 <? length (currencies entities))%nat; lra.
Qed.

(** X14. The entity score is at least 0.5 and strictly below 1, so the
    final cap at 1.0 never takes effect; it is the base score 0.5 exactly
    when no entity was found. *)
Theorem entity_score_range (entities : Entities) :
  (5 # 10 <= scoreConfidenceByEntities entities)%Q ∧
  (scoreConfidenceByEntities entities < 1)%Q ∧
  ((scoreConfidenceByEntities entities == 5 # 10)%Q ↔
   locations entities = [] ∧ organizations entities = [] ∧ dates entities = [] ∧
   currencies entities = [] ∧ numbers entities = [] ∧ topics entities = []).
Proof.
  pose proof (scoreConfidenceByEntities_bounds entities) as [Hlo Hhi].
  split; [exact Hlo|]. split; [lra|]. clear Hlo Hhi. split.
  - intros Hbase.
    pose proof (scoreConfidenceByEntities_found entities) as Hfound.
    pose proof (countOf_nonneg (locations entities)).
    pose proof (countOf_nonneg (organizations entities)).
    pose proof (countOf_nonneg (dates entities)).
    pose proof (countOf_nonneg (currencies entities)).
    pose proof (countOf_nonneg (numbers entities)).
    pose proof (countOf_nonneg (topics entities)).
    generalize dependent (scoreConfidenceByEntities entities). intros s Hbase Hfound.
    repeat split.
    all: match goal with |- ?l = [] => destruct l as [|x xs] eqn:E; [reflexivity|] end.
    all: pose proof (countOf_cons x xs) as Hx; exfalso.
    all: assert (Hs : (55 # 100 <= s)%Q) by (apply Hfound; lra); lra.
  - destruct entities as [l o d c n t]. cbn [locations organizations dates currencies numbers topics].
    intros (-> & -> & -> & -> & -> & ->). vm_compute. reflexivity.
Qed.

(** The confidence and sub-type [predictIntentML] hands on: those of the
    rule-based verdict, or no sub-type with confidence 1 or [NaN]. *)
Lemma predictIntentMLWith_confidence c message ruleBased :
  let result := predictIntentMLWith c message ruleBased in
  (r_confidence result = r_confidence ruleBased ∧ r_type result = r_type ruleBased) ∨
  (r_type result = None ∧ (r_confidence result = Fin 1 ∨ r_confidence result = NaN)).
Proof.
  intros result. subst result. unfold predictIntentMLWith.
  destruct (predict c message) as [p|e] eqn:Hp; [|left; by cbn].
  destruct (predict_confidence_values c message p Hp) as [Hc|[Hc|Hc]]; rewrite Hc; cbn; auto.
Qed.

Lemma Qeq_bool_true x y : Qeq_bool x y = true ↔ (x == y)%Q.
Proof. split; [apply Qeq_bool_eq | apply Qeq_eq_bool]. Qed.



Lemma strictEq_refl a : isNaN a = false → strictEq a a = true.
Proof. destruct a; cbn; try congruence; intros _. apply Qeq_bool_true. reflexivity. Qed.











(** What the rule-based classifier returns when it returns. *)
Lemma detectIntentRuleBased_result message rb :
  detectIntentRuleBased message = Normal rb →
  r_type rb = None ∧ r_intent rb ≠ Some "realtime" ∧
  ∃ q, r_confidence rb = Fin q ∧ (0 <= q <= 1)%Q.
Proof.
  unfold detectIntentRuleBased.
  destruct (scanPatterns message (toLowerCase message) INTENT_PATTERNS 0) as [z|e] eqn:Hscan;
    cbn [bind]; [|discriminate].
  apply scanPatterns_normal in Hscan as [-> _].
  set (sc := mkScores 0 _ _).
  assert (Hdom : dominantIntent sc ≠ "realtime").
  { unfold dominantIntent. cbn [s_realtime sc]. rewrite andb_false_r.
    destruct (_ && _)%bool; discriminate. }
  intros [= <-]. cbn [r_type r_intent r_confidence].
  split; [|split].
  - destruct (String.eqb_spec (dominantIntent sc) "realtime"); [contradiction | reflexivity].
  - congruence.
  - eexists. split; [reflexivity|].
    destruct (0 <? _) eqn:Hpos; [|lra].
    apply Z.ltb_lt in Hpos. split; [|apply Q.le_min_r].
    apply Q.min_glb; [|lra].
    apply Qle_shift_div_l; [lra|]. rewrite Qmult_0_l.
    change 0%Q with (inject_Z 0). rewrite <- Zle_Qle. lia.
Qed.

(** X16. When [detectIntent] returns, its final confidence is [NaN] or a
    number between 0.15 and 0.985; in particular it never exceeds 1, and it
    is never 0. *)
Theorem detectIntent_confidence_range (message : string) (r : IntentResult) :
  detectIntent message = Normal r →
  r_confidence r = NaN ∨
  ∃ q, r_confidence r = Fin q ∧ (15 # 100 <= q <= 985 # 1000)%Q.
Proof.
  unfold detectIntent.
  destruct (detectIntentRuleBased message) as [rb|e] eqn:Hrb; cbn [bind]; [|discriminate].
  destruct (detectIntentRuleBased_result message rb Hrb) as (_ & _ & q0 & Hq0 & Hq0r).
  pose proof (scoreConfidenceByEntities_bounds (extractEntities message)) as Hes.
  generalize dependent (scoreConfidenceByEntities (extractEntities message)). intros es Hes.
  pose proof (predictIntentMLWith_confidence mlClassifier message rb) as Hres.
  unfold predictIntentML. cbv zeta in Hres.
  generalize dependent (predictIntentMLWith mlClassifier message rb). intros res Hres.
  destruct Hres as [(Hc & _)|(_ & [Hc|Hc])];
    intros [= <-]; cbn [r_confidence]; rewrite Hc, ?Hq0; cbn [num_mul num_add].
  - right. eexists. split; [reflexivity|]. lra.
  - right. eexists. split; [reflexivity|]. lra.
  - by left.
Qed.

Lemma detectIntent_confidence_range_witness :
  ∃ r, detectIntent "hello there" = Normal r ∧
       (r_confidence r = NaN ∨
        ∃ q, r_confidence r = Fin q ∧ (15 # 100 <= q <= 985 # 1000)%Q).
Proof.
  eexists. split; [vm_compute; reflexivity|].
  apply (detectIntent_confidence_range "hello there"). vm_compute. reflexivity.
Defined.

(** X17. [detectIntent] never reports a sub-type: whenever it returns, the
    [type] field is unset, whatever the method.  (The rule-based path sets it
    only for a realtime verdict, and each message with a realtime keyword makes
    that path raise; the statistical verdict carries none.) *)
Theorem detectIntent_never_sets_type (message : string) (r : IntentResult) :
  detectIntent message = Normal r → r_type r = None.
Proof.
  unfold detectIntent.
  destruct (detectIntentRuleBased message) as [rb|e] eqn:Hrb; cbn [bind]; [|discriminate].
  destruct (detectIntentRuleBased_result message rb Hrb) as (Hty & _).
  pose proof (predictIntentMLWith_confidence mlClassifier message rb) as Hres.
  unfold predictIntentML. cbv zeta in Hres.
  generalize dependent (predictIntentMLWith mlClassifier message rb). intros res Hres.
  destruct Hres as [(_ & Ht)|(Ht & _)];
    intros [= <-]; cbn [r_type]; congruence.
Qed.

Lemma detectIntent_never_sets_type_witness :
  ∃ r, detectIntent "tell me about blockchain" = Normal r ∧ r_type r = None.
Proof.
  eexists. split; [vm_compute; reflexivity|].
  apply (detectIntent_never_sets_type "tell me about blockchain"). vm_compute. reflexivity.
Defined.

Lemma arrayIncludes_In xs x : arrayIncludes xs x = true ↔ In x xs.
Proof.
  unfold arrayIncludes. rewrite existsb_exists. split.
  - intros (y & Hy & Heq). apply String.eqb_eq in Heq. by subst.
  - intros Hin. exists x. split; [exact Hin | apply String.eqb_refl].
Qed.

Lemma collect_NoDup ms : NoDup (collect ms) ∧ ∀ x, In x (collect ms) ↔ In x ms.
Proof.
  unfold collect.
  assert (H : ∀ acc, NoDup acc →
            NoDup (fold_left (λ arr m, if arrayIncludes arr m then arr else arr ++ [m]) ms acc) ∧
            ∀ x, In x (fold_left (λ arr m, if arrayIncludes arr m then arr else arr ++ [m]) ms acc)
                 ↔ In x acc ∨ In x ms).
  { induction ms as [|m ms IH]; intros acc Hacc; cbn [fold_left].
    - split; [exact Hacc|]. intros x. cbn [In]. tauto.
    - destruct (arrayIncludes acc m) eqn:Hinc.
      + destruct (IH acc Hacc) as [Hnd Hin]. split; [exact Hnd|].
        intros x. rewrite Hin. cbn [In]. apply arrayIncludes_In in Hinc.
        split; [tauto|]. intros [?|[<-|?]]; auto.
      + assert (Hnotin : ¬ In m acc).
        { intros Hin. apply arrayIncludes_In in Hin. congruence. }
        assert (Hacc' : NoDup (acc ++ [m])).
        { apply NoDup_app. split; [exact Hacc|]. split; [|apply NoDup_singleton].
          intros x Hx Hxm. apply list_elem_of_In in Hx. apply list_elem_of_In in Hxm.
          destruct Hxm as [<-|[]]. contradiction. }
        destruct (IH (acc ++ [m]) Hacc') as [Hnd Hin]. split; [exact Hnd|].
        intros x. rewrite Hin, in_app_iff. cbn [In]. tauto. }
  destruct (H [] (NoDup_nil_2)) as [Hnd Hin]. split; [exact Hnd|].
  intros x. rewrite Hin. cbn [In]. tauto.
Qed.

(** X18. Entities of an ASCII text are collected without duplicates: each of
    the four populated lists (locations, dates, currencies, numbers) holds
    exactly the strings its expression matches, each of them once; the
    organization and topic lists are always empty. *)
Theorem extractEntities_no_duplicates (text : string) :
  isAscii text = true →
  let e := extractEntities text in
  NoDup (locations e) ∧ NoDup (dates e) ∧ NoDup (currencies e) ∧ NoDup (numbers e) ∧
  (∀ x, In x (locations e) ↔ In x (Regex.allMatches locationRegex text)) ∧
  (∀ x, In x (dates e) ↔ In x (Regex.allMatches dateRegex text)) ∧
  (∀ x, In x (currencies e) ↔ In x (Regex.allMatches currencyRegex text)) ∧
  (∀ x, In x (numbers e) ↔ In x (Regex.allMatches numberRegex text)) ∧
  organizations e = [] ∧ topics e = [].
Proof.
  intros _.
  cbn [extractEntities locations dates currencies numbers organizations topics].
  repeat split; try apply collect_NoDup; try apply (proj2 (collect_NoDup _));
    apply (proj2 (collect_NoDup _)).
Qed.

Lemma extractEntities_no_duplicates_witness :
  let text := "Paris City on 12/05/2024 and 12/05/2024: $20, $20 or 30" in
  isAscii text = true ∧
  let e := extractEntities text in
  NoDup (locations e) ∧ NoDup (dates e) ∧ NoDup (currencies e) ∧ NoDup (numbers e) ∧
  (∀ x, In x (locations e) ↔ In x (Regex.allMatches locationRegex text)) ∧
  (∀ x, In x (dates e) ↔ In x (Regex.allMatches dateRegex text)) ∧
  (∀ x, In x (currencies e) ↔ In x (Regex.allMatches currencyRegex text)) ∧
  (∀ x, In x (numbers e) ↔ In x (Regex.allMatches numberRegex text)) ∧
  organizations e = [] ∧ topics e = [].
Proof.
  split; [reflexivity|].
  apply (extractEntities_no_duplicates
           "Paris City on 12/05/2024 and 12/05/2024: $20, $20 or 30").
  reflexivity.
Defined.

Lemma lowerChar_not_upper c : isUpper (lowerChar c) = false.
Proof. destruct c as [[] [] [] [] [] [] [] []]; reflexivity. Qed.

Lemma toLowerCase_chars s :
  Forall (λ c, isUpper c = false) (list_ascii_of_string (toLowerCase s)).
Proof.
  induction s as [|c s IH]; cbn; constructor; [apply lowerChar_not_upper | exact IH].
Qed.

Lemma bigrams_length words : length (bigrams words) = (length words - 1)%nat.
Proof.
  induction words as [|w1 [|w2 rest] IH]; [reflexivity | reflexivity |].
  cbn [bigrams length] in *. rewrite IH. lia.
Qed.

Lemma bigrams_lookup words : ∀ i a b,
  words !! i = Some a → words !! S i = Some b →
  bigrams words !! i = Some (String.append a (String.append "_" b)).
Proof.
  induction words as [|w1 [|w2 rest] IH]; intros i a b Ha Hb.
  - destruct i; discriminate Ha.
  - destruct i; discriminate Hb.
  - destruct i as [|i]; simpl in Ha, Hb.
    + injection Ha as <-. injection Hb as <-. reflexivity.
    + cbn [bigrams]. simpl. apply IH; [exact Ha | exact Hb].
Qed.

Lemma pending_word (c0 : ascii) (w : list ascii) :
  Forall (λ c, isSpace c = false) (c0 :: w) →
  string_of_list_ascii (rev (c0 :: w)) ≠ EmptyString ∧
  Forall (λ c, isSpace c = false)
         (list_ascii_of_string (string_of_list_ascii (rev (c0 :: w)))).
Proof.
  intros Hw. split.
  - intros Hnil. apply (f_equal list_ascii_of_string) in Hnil.
    rewrite list_ascii_of_string_of_list_ascii in Hnil.
    apply (f_equal (@length ascii)) in Hnil. rewrite length_rev in Hnil. discriminate.
  - rewrite list_ascii_of_string_of_list_ascii. by apply Forall_rev.
Qed.

(** [split(/\s+/)] followed by the filter on empty strings: the text is the
    words in order, each followed by a run of white space that is empty at
    most after the last word. *)
Lemma splitWords_runs s : ∀ word,
  Forall (λ c, isSpace c = false) word →
  ∃ (lead : list ascii) (runs : list (string * list ascii)),
    rev word ++ s
    = lead ++ concat (map (λ wg, list_ascii_of_string wg.1 ++ wg.2) runs) ∧
    splitWords s word = map fst runs ∧
    Forall (λ c, isSpace c = true) lead ∧
    Forall (λ wg, wg.1 ≠ EmptyString ∧
                  Forall (λ c, isSpace c = false) (list_ascii_of_string wg.1) ∧
                  Forall (λ c, isSpace c = true) wg.2) runs ∧
    (∀ i wg, runs !! i = Some wg → (S i < length runs)%nat → wg.2 ≠ []).
Proof.
  induction s as [|c s IH]; intros word Hword.
  - cbn [splitWords]. rewrite app_nil_r. destruct word as [|c0 w].
    + exists [], []. split; [reflexivity|]. split; [reflexivity|].
      split; [constructor|]. split; [constructor|]. intros i wg Hi. discriminate Hi.
    + destruct (pending_word c0 w Hword) as [Hne Hns].
      exists [], [(string_of_list_ascii (rev (c0 :: w)), [])].
      split.
      { cbn [map concat fst snd app]. by rewrite list_ascii_of_string_of_list_ascii, !app_nil_r. }
      split; [reflexivity|]. split; [constructor|]. split.
      { constructor; [|constructor]. cbn [fst snd]. split; [exact Hne|]. split; [exact Hns|constructor]. }
      intros i wg Hi Hlt. cbn [length] in Hlt. lia.
  - cbn [splitWords]. destruct (isSpace c) eqn:Hsp.
    + destruct (IH [] (Forall_nil_2 _)) as (lead & runs & Heq & Hsplit & Hlead & Hruns & Hgaps).
      cbn [rev app] in Heq. destruct word as [|c0 w].
      * exists (c :: lead), runs. split; [cbn [rev app]; by rewrite Heq|].
        split; [exact Hsplit|]. split; [by constructor|]. split; [exact Hruns | exact Hgaps].
      * destruct (pending_word c0 w Hword) as [Hne Hns].
        exists [], ((string_of_list_ascii (rev (c0 :: w)), c :: lead) :: runs).
        split.
        { cbn [map concat fst snd app]. rewrite list_ascii_of_string_of_list_ascii.
          rewrite Heq, <- !app_assoc. reflexivity. }
        split; [cbn [map fst]; by rewrite Hsplit|]. split; [constructor|]. split.
        { constructor; [|exact Hruns]. cbn [fst snd].
          split; [exact Hne|]. split; [exact Hns | by constructor]. }
        intros [|i] wg Hi Hlt.
        -- injection Hi as <-. discriminate.
        -- apply (Hgaps i wg Hi). cbn [length] in Hlt. lia.
    + destruct (IH (c :: word)) as (lead & runs & Heq & Hsplit & Hlead & Hruns & Hgaps).
      { by constructor. }
      exists lead, runs. cbn [rev] in Heq. rewrite <- app_assoc in Heq. cbn [app] in Heq.
      split; [exact Heq|]. split; [exact Hsplit|]. split; [exact Hlead|].
      split; [exact Hruns | exact Hgaps].
Qed.

(** X19. The features of an ASCII text.  The text is lower-cased and
    everything but letters, digits, underscores and white space is dropped;
    what is left is cut at the white space: it consists of the words, in
    order, each followed by white space (possibly none after the last one),
    after possibly some leading white space.  The features are these words
    followed by the bigrams of neighbouring words: [n] words give [n - 1]
    bigrams.  So every word is non-empty and made of lower-case letters,
    digits and underscores only. *)
Theorem extractFeatures_shape (text : string) :
  isAscii text = true →
  let cleaned :=
    List.filter (λ c, isWord c || isSpace c) (list_ascii_of_string (toLowerCase text)) in
  ∃ (lead : list ascii) (runs : list (string * list ascii)),
    let words := map fst runs in
    cleaned = lead ++ concat (map (λ wg, list_ascii_of_string wg.1 ++ wg.2) runs) ∧
    Forall (λ c, isSpace c = true) lead ∧
    Forall (λ wg, wg.1 ≠ EmptyString ∧
                  Forall (λ c, isWord c = true ∧ isUpper c = false)
                         (list_ascii_of_string wg.1) ∧
                  Forall (λ c, isSpace c = true) wg.2) runs ∧
    (∀ i wg, runs !! i = Some wg → (S i < length runs)%nat → wg.2 ≠ []) ∧
    length (extractFeatures text) = (length words + (length words - 1))%nat ∧
    (∀ i w, words !! i = Some w → extractFeatures text !! i = Some w) ∧
    (∀ i a b, words !! i = Some a → words !! S i = Some b →
       extractFeatures text !! (length words + i)%nat
       = Some (String.append a (String.append "_" b))).
Proof.
  intros _ cleaned. unfold extractFeatures. fold cleaned.
  destruct (splitWords_runs cleaned [] (Forall_nil_2 _))
    as (lead & runs & Heq & Hsplit & Hlead & Hruns & Hgaps).
  cbn [rev app] in Heq. exists lead, runs. cbv zeta. rewrite Hsplit.
  split; [exact Heq|]. split; [exact Hlead|]. split; [|split; [exact Hgaps|split; [|split]]].
  - assert (Hcl : Forall (λ c, (isWord c || isSpace c)%bool = true ∧ isUpper c = false) cleaned).
    { apply Forall_forall. intros c Hc. apply list_elem_of_In, filter_In in Hc as [Hin Hcls].
      split; [exact Hcls|].
      pose proof (toLowerCase_chars text) as Hlow. rewrite Forall_forall in Hlow.
      apply Hlow. by apply list_elem_of_In. }
    rewrite Heq in Hcl. apply Forall_app in Hcl as [_ Hcl].
    clear -Hcl Hruns. induction Hruns as [|wg runs (Hne & Hns & Hgap) _ IH]; [constructor|].
    cbn [map concat] in Hcl. apply Forall_app in Hcl as [Hwg Hrest].
    apply Forall_app in Hwg as [Hw _].
    constructor; [|by apply IH]. split; [exact Hne|]. split; [|exact Hgap].
    rewrite Forall_forall in Hw, Hns. apply Forall_forall. intros c Hc.
    destruct (Hw c Hc) as [Hcls Hup]. rewrite (Hns c Hc), orb_false_r in Hcls. by split.
  - by rewrite length_app, bigrams_length.
  - intros i w Hi. rewrite lookup_app_l; [exact Hi|]. by eapply lookup_lt_Some.
  - intros i a b Ha Hb. rewrite lookup_app_r by lia.
    replace (length (map fst runs) + i - length (map fst runs))%nat with i by lia.
    by apply bigrams_lookup.
Qed.

Lemma extractFeatures_shape_witness :
  let text := "  What's the  Plan_B?" in
  isAscii text = true ∧
  extractFeatures text = ["whats"; "the"; "plan_b"; "whats_the"; "the_plan_b"] ∧
  let cleaned :=
    List.filter (λ c, isWord c || isSpace c) (list_ascii_of_string (toLowerCase text)) in
  ∃ (lead : list ascii) (runs : list (string * list ascii)),
    let words := map fst runs in
    cleaned = lead ++ concat (map (λ wg, list_ascii_of_string wg.1 ++ wg.2) runs) ∧
    Forall (λ c, isSpace c = true) lead ∧
    Forall (λ wg, wg.1 ≠ EmptyString ∧
                  Forall (λ c, isWord c = true ∧ isUpper c = false)
                         (list_ascii_of_string wg.1) ∧
                  Forall (λ c, isSpace c = true) wg.2) runs ∧
    (∀ i wg, runs !! i = Some wg → (S i < length runs)%nat → wg.2 ≠ []) ∧
    length (extractFeatures text) = (length words + (length words - 1))%nat ∧
    (∀ i w, words !! i = Some w → extractFeatures text !! i = Some w) ∧
    (∀ i a b, words !! i = Some a → words !! S i = Some b →
       extractFeatures text !! (length words + i)%nat
       = Some (String.append a (String.append "_" b))).
Proof.
  split; [reflexivity|]. split; [reflexivity|].
  apply (extractFeatures_shape "  What's the  Plan_B?"). reflexivity.
Defined.








Lemma matchCount_pos messageLower kws :
  0 < matchCount messageLower kws ↔ ∃ kw, In kw kws ∧ includes messageLower kw = true.
Proof.
  unfold matchCount. split.
  - intros Hpos. destruct (List.filter (includes messageLower) kws) as [|kw rest] eqn:Hf;
      [simpl in Hpos; lia|].
    exists kw. apply filter_In. rewrite Hf. by left.
  - intros (kw & Hin & Hinc).
    assert (Hin' : In kw (List.filter (includes messageLower) kws)) by (by apply filter_In).
    destruct (List.filter (includes messageLower) kws); [destruct Hin' | cbn [length]; lia].
Qed.

(** X21. On a message of ASCII characters, [detectIntent] returns a
    classification exactly when the lower-cased message contains none of the
    live-data keywords of [INTENT_PATTERNS]; on every other such message it
    raises. *)
Theorem detectIntent_returns_iff (message : string) :
  isAscii message = true →
  ((∃ r, detectIntent message = Normal r) ↔
   ∀ key pattern kw, In (key, pattern) INTENT_PATTERNS → In kw (keywords pattern) →
                     includes (toLowerCase message) kw = false) ∧
  ((∃ e, detectIntent message = Throw e) ↔
   ∃ key pattern kw, In (key, pattern) INTENT_PATTERNS ∧ In kw (keywords pattern) ∧
                     includes (toLowerCase message) kw = true).
Proof.
  intros _.
  pose proof (detectIntent_raises_iff message) as Hraise.
  rewrite Exists_exists in Hraise.
  assert (Hthrow : (∃ e, detectIntent message = Throw e) ↔
            ∃ key pattern kw, In (key, pattern) INTENT_PATTERNS ∧ In kw (keywords pattern) ∧
                              includes (toLowerCase message) kw = true).
  { rewrite Hraise. split.
    - intros ([key pattern] & Hin & Hpos). apply matchCount_pos in Hpos as (kw & Hkw & Hinc).
      exists key, pattern, kw. split; [by apply list_elem_of_In | by split].
    - intros (key & pattern & kw & Hin & Hkw & Hinc). exists (key, pattern).
      split; [by apply list_elem_of_In|]. apply matchCount_pos. eauto. }
  split; [|exact Hthrow]. split.
  - intros [r Hr] key pattern kw Hin Hkw.
    destruct (includes (toLowerCase message) kw) eqn:Hinc; [|reflexivity].
    assert (Hex : ∃ e, detectIntent message = Throw e).
    { apply Hthrow. exists key, pattern, kw. by repeat split. }
    destruct Hex as [e He]. congruence.
  - intros Hnone. destruct (detectIntent message) as [r|e] eqn:Hd; [eauto|].
    assert (Hex' : ∃ e0, @Throw IntentResult e = Throw e0) by eauto.
    apply Hthrow in Hex' as (key & pattern & kw & Hin & Hkw & Hinc).
    rewrite (Hnone key pattern kw Hin Hkw) in Hinc. discriminate.
Qed.

Lemma detectIntent_returns_iff_witness :
  isAscii "BREAKING: hello" = true ∧
  ((∃ r, detectIntent "BREAKING: hello" = Normal r) ↔
   ∀ key pattern kw, In (key, pattern) INTENT_PATTERNS → In kw (keywords pattern) →
                     includes (toLowerCase "BREAKING: hello") kw = false) ∧
  ((∃ e, detectIntent "BREAKING: hello" = Throw e) ↔
   ∃ key pattern kw, In (key, pattern) INTENT_PATTERNS ∧ In kw (keywords pattern) ∧
                     includes (toLowerCase "BREAKING: hello") kw = true).
Proof.
  split; [reflexivity|]. apply (detectIntent_returns_iff "BREAKING: hello"). reflexivity.
Defined.
End ClassifierMore.

Section ResponseRankerMore.
Import Js EntityRecognition ResponseRanker.

Lemma insertRanked_In x l z : In z (insertRanked x l) ↔ z = x ∨ In z l.
Proof.
  induction l as [|y rest IH]; cbn [insertRanked In].
  - intuition.
  - destruct (Qle_bool (rankScore y) (rankScore x)); cbn [In]; rewrite ?IH; intuition.
Qed.

Lemma insertRanked_perm x l : Permutation (insertRanked x l) (x :: l).
Proof.
  induction l as [|y rest IH]; cbn [insertRanked]; [reflexivity|].
  destruct (Qle_bool (rankScore y) (rankScore x)); [reflexivity|].
  rewrite IH. apply perm_swap.
Qed.

Lemma insertRanked_sorted x l :
  StronglySorted (λ a b, (rankScore b <= rankScore a)%Q) l →
  StronglySorted (λ a b, (rankScore b <= rankScore a)%Q) (insertRanked x l).
Proof.
  induction 1 as [|y rest Hsorted IH Hall]; cbn [insertRanked].
  - repeat constructor.
  - destruct (Qle_bool (rankScore y) (rankScore x)) eqn:Hle.
    + apply Qle_bool_iff in Hle. constructor; [by constructor|].
      constructor; [exact Hle|].
      eapply Forall_impl; [exact Hall|]. intros z Hz. cbn in Hz. by eapply Qle_trans.
    + constructor; [exact IH|].
      apply Forall_forall. intros z Hz. apply list_elem_of_In, insertRanked_In in Hz as [->|Hz].
      * apply Qnot_lt_le. intros Hlt. apply Qlt_le_weak, Qle_bool_iff in Hlt. congruence.
      * rewrite Forall_forall in Hall. apply Hall. by apply list_elem_of_In.
Qed.

Lemma sortByRank_spec xs :
  Permutation (sortByRank xs) xs ∧
  StronglySorted (λ a b, (rankScore b <= rankScore a)%Q) (sortByRank xs).
Proof.
  induction xs as [|x xs [IHp IHs]]; cbn [sortByRank fold_right].
  - split; [reflexivity | constructor].
  - split; [rewrite insertRanked_perm; by constructor | by apply insertRanked_sorted].
Qed.


(** Every ranked entry is one of the responses with its capped score. *)
Lemma rankResponses_scored (responses : list Response) (query intent : string) x :
  In x (rankResponses responses query intent) →
  In (response x) responses ∧
  rankScore x = Qmin (scoreOf (extractEntities query) intent (response x)) 1.
Proof.
  unfold rankResponses. intros Hx.
  apply (Permutation_in _ (proj1 (sortByRank_spec _))) in Hx.
  apply in_map_iff in Hx as (r & <- & Hr). by split.
Qed.

Lemma rankResponses_perm (responses : list Response) (query intent : string) :
  Permutation (map response (rankResponses responses query intent)) responses.
Proof.
  unfold rankResponses. rewrite (proj1 (sortByRank_spec _)).
  rewrite map_map. cbn [response]. by rewrite map_id.
Qed.


Lemma extractEntities_empty : extractEntities "" = mkEntities [] [] [] [] [] [].
Proof. vm_compute. reflexivity. Qed.

(** Without query entities and under the intent "general" only the
    confidence and the length of the content count. *)
Lemma scoreOf_plain r :
  (scoreOf (extractEntities "") "general" r
   == ResponseMerger.orDefault (confidence r) (5 # 10) * (4 # 10)
      + (if ((100 <? String.length (content r)) && (String.length (content r) <? 2000))%nat
         then 2 # 10 else 0))%Q.
Proof.
  unfold scoreOf. rewrite extractEntities_empty.
  change (entityMatches (mkEntities [] [] [] [] [] []) (extractEntities (content r))) with 0.
  change (String.eqb "general" "realtime") with false.
  change (String.eqb "general" "rag") with false.
  rewrite !andb_false_r.
  assert (Hm : (Qmin (inject_Z 0 * (15 # 100)) (3 # 10) == 0)%Q).
  { rewrite Q.min_l; [reflexivity | vm_compute; discriminate]. }
  destruct ((100 <? String.length (content r)) && (String.length (content r) <? 2000))%nat;
    rewrite Hm; ring.
Qed.

(** X23. [getTopRankedResponse] ranks with an empty query and the intent
    "general", so the score of a response with ASCII content is 0.4 times its
    confidence (0.5 when unset or 0), plus 0.2 for a content longer than 100
    and shorter than 2000 characters, capped at 1.  Up to a tolerance of
    1e-9, which covers the rounding of the floating-point sums, the quality
    threshold is 0.3: nothing is returned for an empty list or when every
    score is below 0.3; otherwise one of the given responses is returned, its
    score is at least 0.3 and at least the score of every other response. *)
Theorem getTopRankedResponse_threshold (responses : list Response) :
  Forall (λ r, isAscii (content r) = true) responses →
  let plain (r : Response) : Q :=
    (Qmin (ResponseMerger.orDefault (confidence r) (5 # 10) * (4 # 10)
           + (if ((100 <? String.length (content r))
                  && (String.length (content r) <? 2000))%nat
              then 2 # 10 else 0)) 1)%Q in
  let tolerance : Q := (1 # 1000000000)%Q in
  match getTopRankedResponse responses with
  | Some top =>
      In (response top) responses ∧
      (plain (response top) - tolerance <= rankScore top)%Q ∧
      (rankScore top <= plain (response top) + tolerance)%Q ∧
      ((3 # 10) - tolerance <= plain (response top))%Q ∧
      ∀ r, In r responses → (plain r <= plain (response top) + tolerance)%Q
  | None =>
      ∀ r, In r responses → (plain r < (3 # 10) + tolerance)%Q
  end.
Proof.
  intros _ plain tolerance. unfold getTopRankedResponse.
  destruct responses as [|r0 rest]; [intros r []|].
  pose proof (rankResponses_perm (r0 :: rest) "" "general") as Hperm.
  assert (Hsorted : StronglySorted (λ a b, (rankScore b <= rankScore a)%Q)
                      (rankResponses (r0 :: rest) "" "general"))
    by apply sortByRank_spec.
  assert (Hplain : ∀ x, In x (rankResponses (r0 :: rest) "" "general") →
                        (rankScore x == plain (response x))%Q).
  { intros x Hx. destruct (rankResponses_scored _ _ _ x Hx) as [_ ->].
    unfold plain. by rewrite scoreOf_plain. }
  assert (Hranked : ∀ r, In r (r0 :: rest) →
            ∃ x, In x (rankResponses (r0 :: rest) "" "general") ∧ response x = r).
  { intros r Hr. apply (Permutation_in _ (Permutation_sym Hperm)) in Hr.
    apply in_map_iff in Hr as (x & Hx & Hin). eauto. }
  assert (Htol : (0 < tolerance)%Q) by reflexivity.
  destruct (rankResponses (r0 :: rest) "" "general") as [|top others] eqn:Hrank.
  - intros r Hr. destruct (Hranked r Hr) as (x & [] & _).
  - assert (Htop : ∀ r, In r (r0 :: rest) → (plain r <= rankScore top)%Q).
    { intros r Hr. destruct (Hranked r Hr) as (x & Hx & <-).
      rewrite <- (Hplain x Hx). destruct Hx as [->|Hx]; [apply Qle_refl|].
      apply StronglySorted_inv in Hsorted as [_ Hall]. rewrite Forall_forall in Hall.
      apply Hall. by apply list_elem_of_In. }
    assert (Hself : (rankScore top == plain (response top))%Q) by (apply Hplain; by left).
    destruct (Qle_bool (3 # 10) (rankScore top)) eqn:Hle; cbn [negb].
    + apply Qle_bool_iff in Hle. split; [|split; [|split; [|split]]].
      * apply (Permutation_in _ Hperm). cbn [map]. by left.
      * lra.
      * lra.
      * lra.
      * intros r Hr. specialize (Htop r Hr). lra.
    + intros r Hr. specialize (Htop r Hr).
      assert (Hlt : (rankScore top < 3 # 10)%Q).
      { apply Qnot_le_lt. intros Hge. apply Qle_bool_iff in Hge. congruence. }
      lra.
Qed.

Lemma getTopRankedResponse_threshold_witness :
  let responses :=
    [ mkResponse "rag" "Paris is the capital of France." (Some (9 # 10));
      mkResponse "pdf" "See page 4." None ] in
  Forall (λ r, isAscii (content r) = true) responses ∧
  let plain (r : Response) : Q :=
    (Qmin (ResponseMerger.orDefault (confidence r) (5 # 10) * (4 # 10)
           + (if ((100 <? String.length (content r))
                  && (String.length (content r) <? 2000))%nat
              then 2 # 10 else 0)) 1)%Q in
  let tolerance : Q := (1 # 1000000000)%Q in
  match getTopRankedResponse responses with
  | Some top =>
      In (response top) responses ∧
      (plain (response top) - tolerance <= rankScore top)%Q ∧
      (rankScore top <= plain (response top) + tolerance)%Q ∧
      ((3 # 10) - tolerance <= plain (response top))%Q ∧
      ∀ r, In r responses → (plain r <= plain (response top) + tolerance)%Q
  | None =>
      ∀ r, In r responses → (plain r < (3 # 10) + tolerance)%Q
  end.
Proof.
  split; [repeat constructor|].
  apply (getTopRankedResponse_threshold
           [ mkResponse "rag" "Paris is the capital of France." (Some (9 # 10));
             mkResponse "pdf" "See page 4." None ]).
  repeat constructor.
Defined.
End ResponseRankerMore.

Section AnalyticsMore.
Import Analytics.

Lemma updateAverage_fields m :
  totalQueries (updateAverageResponseTime m) = totalQueries m ∧
  queriesBySource (updateAverageResponseTime m) = queriesBySource m ∧
  responseTimes (updateAverageResponseTime m) = responseTimes m ∧
  (responseTimes m ≠ [] →
   averageResponseTime (updateAverageResponseTime m)
   = roundedMean (sumOf (responseTimes m)) (Z.of_nat (length (responseTimes m)))).
Proof.
  unfold updateAverageResponseTime. destruct (responseTimes m) eqn:Hts; cbn; auto.
  repeat split; auto. congruence.
Qed.

Lemma countSource_zero source : countSource (mkCounts 0 0 0) source = mkCounts 0 0 0.
Proof.
  unfold countSource.
  destruct (String.eqb source "realtime"); [reflexivity|].
  destruct (String.eqb source "rag"); [reflexivity|].
  by destruct (String.eqb source "llm").
Qed.

(** The window after one more response time. *)
Lemma window_step (ts : list Z) (t : Z) (rest : list Z) :
  (length ts <= 100)%nat →
  let ts1 := if (100 <? length (ts ++ [t]))%nat then tail (ts ++ [t]) else ts ++ [t] in
  (length ts1 <= 100)%nat ∧
  skipn (length (ts1 ++ rest) - 100) (ts1 ++ rest)
  = skipn (length (ts ++ t :: rest) - 100) (ts ++ t :: rest).
Proof.
  intros Hlen. cbn zeta.
  destruct (100 <? length (ts ++ [t]))%nat eqn:Hfull.
  - apply Nat.ltb_lt in Hfull. rewrite length_app in Hfull. cbn [length] in Hfull.
    destruct ts as [|t0 ts']; [cbn in Hfull; lia|].
    cbn [app tail]. cbn [length] in Hlen, Hfull.
    assert (Hl : length ts' = 99%nat) by lia.
    split; [rewrite length_app; cbn [length]; lia|].
    replace (t0 :: ts' ++ t :: rest) with (t0 :: ((ts' ++ [t]) ++ rest))
      by (by rewrite <- app_assoc).
    cbn [length]. rewrite !length_app. cbn [length]. rewrite Hl.
    replace (S (99 + 1 + length rest) - 100)%nat with (S (length rest)) by lia.
    replace (99 + 1 + length rest - 100)%nat with (length rest) by lia.
    reflexivity.
  - apply Nat.ltb_ge in Hfull. split; [exact Hfull|].
    by rewrite <- app_assoc.
Qed.

(** X24. The query counters after any run of [recordQuery] calls on fresh
    metrics: [totalQueries] is the number of calls and [responseTimes] holds
    the last 100 response times in order, with [averageResponseTime] their
    mean rounded to the nearest integer; the per-source counters are all
    still 0, whatever sources were recorded, because a counter is incremented
    only when it is already non-zero. *)
Theorem recordQueries_counts (start : Z) (calls : list (string * Z)) :
  let m := recordQueries (constructor start) calls in
  let times := map snd calls in
  let window := skipn (length times - 100) times in
  totalQueries m = Z.of_nat (length calls) ∧
  queriesBySource m = mkCounts 0 0 0 ∧
  responseTimes m = window ∧
  (length (responseTimes m) <= 100)%nat ∧
  (calls ≠ [] →
   averageResponseTime m = roundedMean (sumOf window) (Z.of_nat (length window))).
Proof.
  assert (Hgen : ∀ calls m0,
            (length (responseTimes m0) <= 100)%nat →
            queriesBySource m0 = mkCounts 0 0 0 →
            let m := recordQueries m0 calls in
            let all := responseTimes m0 ++ map snd calls in
            totalQueries m = totalQueries m0 + Z.of_nat (length calls) ∧
            queriesBySource m = mkCounts 0 0 0 ∧
            responseTimes m = skipn (length all - 100) all ∧
            (length (responseTimes m) <= 100)%nat ∧
            (calls ≠ [] →
             averageResponseTime m
             = roundedMean (sumOf (responseTimes m)) (Z.of_nat (length (responseTimes m))))).
  { clear calls. induction calls as [|[source t] rest IH]; intros m0 Hlen Hzero.
    - cbn [recordQueries fold_left map length]. rewrite app_nil_r, Z.add_0_r.
      replace (length (responseTimes m0) - 100)%nat with 0%nat by lia.
      cbn [skipn]. repeat split; auto. congruence.
    - cbn [recordQueries fold_left map snd].
      change (fold_left _ rest ?x) with (recordQueries x rest).
      pose proof (window_step (responseTimes m0) t (map snd rest) Hlen) as Hstep.
      cbn zeta in Hstep. destruct Hstep as [Hlen1 Hwin].
      destruct (updateAverage_fields
                  (mkMetrics (totalQueries m0 + 1) (countSource (queriesBySource m0) source)
                     (cacheHits m0) (cacheMisses m0) (totalPDFsUploaded m0)
                     (totalPDFsProcessed m0) (averageResponseTime m0) (errorCount m0)
                     (if (100 <? length (responseTimes m0 ++ [t]))%nat
                      then tail (responseTimes m0 ++ [t]) else responseTimes m0 ++ [t])
                     (startTime m0))) as (Htot & Hsrc & Hts & Havg).
      cbn [totalQueries queriesBySource responseTimes] in Htot, Hsrc, Hts, Havg.
      fold (recordQuery m0 source t) in Htot, Hsrc, Hts, Havg |- *.
      rewrite Hzero, countSource_zero in Hsrc.
      specialize (IH (recordQuery m0 source t)).
      rewrite Hts, Htot in IH. specialize (IH Hlen1 Hsrc). cbn zeta in IH.
      destruct IH as (IHtot & IHsrc & IHts & IHlen & IHavg).
      split; [rewrite IHtot; cbn [length]; lia|]. split; [exact IHsrc|].
      split; [rewrite IHts; exact Hwin|]. split; [exact IHlen|].
      intros _. destruct rest as [|c rest'].
      + cbn [recordQueries fold_left]. rewrite Hts. apply Havg.
        destruct (100 <? _)%nat; [|by destruct (responseTimes m0)].
        destruct (responseTimes m0) as [|a [|b l]]; cbn; try discriminate.
      + apply IHavg. discriminate. }
  intros m times window. subst m times window.
  destruct (Hgen calls (constructor start)) as (Htot & Hsrc & Hts & Hlen & Havg);
    [cbn; lia | reflexivity |].
  cbn [responseTimes constructor app totalQueries] in Htot, Hts.
  rewrite length_map in Hts |- *.
  split; [lia|]. split; [exact Hsrc|]. split; [exact Hts|]. split; [exact Hlen|].
  intros Hne. rewrite <- Hts. by apply Havg.
Qed.
End AnalyticsMore.

Section AlertManagerMore.
Import AlertManager.

Lemma recordAPIFailure_step st apiName error clk :
  let '(a, st') := recordAPIFailure st apiName error clk in
  count a = Some (apiFailures (counters st) + 1) ∧
  severity a = (if apiFailureThreshold <=? apiFailures (counters st) + 1
                then critical else warning) ∧
  apiFailures (counters st') = apiFailures (counters st) + 1.
Proof. unfold recordAPIFailure. cbn. auto. Qed.

(** X25. API failures escalate by count, not by what is still stored: in any
    run of [recordAPIFailure] calls the alert returned by the [i]-th call
    carries the running count, and it is critical exactly from the fifth
    failure on, whatever the clock says and however many older alerts the
    retention sweep has dropped in between. *)
Theorem api_failures_escalate (st : State) (calls : list (string * string * Clock)) :
  let '(returned, st') := recordAPIFailures st calls in
  length returned = length calls ∧
  apiFailures (counters st') = apiFailures (counters st) + Z.of_nat (length calls) ∧
  ∀ (i : nat) (a : Alert), returned !! i = Some a →
    let n := apiFailures (counters st) + Z.of_nat i + 1 in
    count a = Some n ∧
    (severity a = critical ↔ 5 <= n) ∧
    (severity a = warning ↔ n < 5).
Proof.
  revert st. induction calls as [|[[apiName error] clk] rest IH]; intros st.
  - cbn. split; [reflexivity|]. split; [lia|]. intros i a Hi. discriminate.
  - cbn [recordAPIFailures].
    pose proof (recordAPIFailure_step st apiName error clk) as Hstep.
    destruct (recordAPIFailure st apiName error clk) as [a0 st1].
    destruct Hstep as (Hcount & Hsev & Hctr).
    specialize (IH st1). destruct (recordAPIFailures st1 rest) as [more st2].
    destruct IH as (Hlen & Hfinal & Hall).
    split; [cbn [length]; by rewrite Hlen|].
    split; [rewrite Hfinal, Hctr; cbn [length]; lia|].
    intros [|i] a Hi; cbn in Hi.
    + injection Hi as <-. cbn zeta. rewrite Z.add_0_r. split; [exact Hcount|].
      rewrite Hsev. unfold apiFailureThreshold.
      destruct (5 <=? apiFailures (counters st) + 1) eqn:Hle;
        [apply Z.leb_le in Hle | apply Z.leb_gt in Hle];
        split; split; intros H; try discriminate; try reflexivity; lia.
    + specialize (Hall i a Hi). cbn zeta in Hall. rewrite Hctr in Hall. cbn zeta.
      replace (apiFailures (counters st) + Z.of_nat (S i) + 1)
        with (apiFailures (counters st) + 1 + Z.of_nat i + 1) by lia.
      exact Hall.
Qed.

(** X26. Retention.  After a failure or queue error has been recorded,
    every stored alert is younger than 24 hours at the clock read of the
    sweep and was either stored before or is the alert just recorded; the new
    alert itself is stored exactly when its own timestamp is inside the
    retention period. *)
Theorem alerts_retained_one_day (st : State) (subject error : string) (clk : Clock) :
  let check (res : Alert * State) :=
    Forall (λ a, atCleanup clk - alertRetentionMs < timestamp a) (alerts res.2) ∧
    (∀ a, In a (alerts res.2) → In a (alerts st) ∨ a = res.1) ∧
    (In res.1 (alerts res.2) ↔ atCleanup clk - alertRetentionMs < atStamp clk) in
  check (recordAPIFailure st subject error clk) ∧
  check (recordQueueError st subject error clk).
Proof.
  assert (Hsweep : ∀ (old : list Alert) (a : Alert) cs,
            timestamp a = atStamp clk →
            let st' := cleanupOldAlerts (mkState (old ++ [a]) cs) (atCleanup clk) in
            Forall (λ x, atCleanup clk - alertRetentionMs < timestamp x) (alerts st') ∧
            (∀ x, In x (alerts st') → In x old ∨ x = a) ∧
            (In a (alerts st') ↔ atCleanup clk - alertRetentionMs < atStamp clk)).
  { intros old a cs Hstamp. cbn [cleanupOldAlerts alerts]. split; [|split].
    - apply Forall_forall. intros x Hx. apply list_elem_of_In, filter_In in Hx as [_ Hx].
      rewrite Z.gtb_ltb in Hx. by apply Z.ltb_lt.
    - intros x Hx. apply filter_In in Hx as [Hx _].
      apply in_app_iff in Hx as [Hx|[<-|[]]]; auto.
    - rewrite filter_In, in_app_iff, Z.gtb_ltb, Z.ltb_lt, Hstamp. cbn [In].
      tauto. }
  intros check. subst check. cbn beta. split.
  - unfold recordAPIFailure. cbn [fst snd]. apply Hsweep. reflexivity.
  - unfold recordQueueError. cbn [fst snd]. apply Hsweep. reflexivity.
Qed.

(** X27. [getRecentAlerts(limit)] with a positive [limit] returns the
    [limit] most recent alerts, newest first (all of them when fewer are
    stored); with [limit = 0] it returns every stored alert, not none, since
    [slice(-0)] is [slice(0)]. *)
Theorem getRecentAlerts_limit (st : State) (limit : Z) :
  (0 < limit →
   getRecentAlerts st limit = firstn (Z.to_nat limit) (rev (alerts st)) ∧
   Z.of_nat (length (getRecentAlerts st limit))
   = Z.min limit (Z.of_nat (length (alerts st)))) ∧
  getRecentAlerts st 0 = rev (alerts st).
Proof.
  unfold getRecentAlerts, sliceFrom. split.
  - intros Hpos.
    assert (Hneg : (- limit <? 0) = true) by (apply Z.ltb_lt; lia). rewrite Hneg.
    assert (Heq : rev (skipn (Z.to_nat (Z.max (Z.of_nat (length (alerts st)) + - limit) 0))
                             (alerts st))
                  = firstn (Z.to_nat limit) (rev (alerts st))).
    { rewrite firstn_rev. f_equal. f_equal. lia. }
    rewrite Heq. split; [reflexivity|].
    rewrite length_firstn, length_rev. lia.
  - cbn [Z.opp Z.ltb Z.compare]. rewrite Z.min_l by lia. reflexivity.
Qed.
End AlertManagerMore.

Section SessionManagerMore.
Import SessionManager.

Lemma getSession_found (sessions : gmap string Session) sid now s :
  sessions !! sid = Some s →
  getSession sessions sid now
  = (Some (mkSession (sessionId s) (userId s) (createdAt s) now (documents s)),
     <[sid := mkSession (sessionId s) (userId s) (createdAt s) now (documents s)]> sessions).
Proof. intros H. unfold getSession. by rewrite H. Qed.

Lemma getSession_other (sessions : gmap string Session) sid other now :
  other ≠ sid → (getSession sessions sid now).2 !! other = sessions !! other.
Proof.
  intros Hne. unfold getSession. destruct (sessions !! sid); [|done].
  cbn [snd]. by apply lookup_insert_ne.
Qed.

Lemma verify_by_lookup (s1 s2 : gmap string Session) sid docId now :
  documents <$> s1 !! sid = documents <$> s2 !! sid →
  (verifyDocumentAccess s1 sid docId now).1 = (verifyDocumentAccess s2 sid docId now).1 ∧
  (getUserDocuments s1 sid now).1 = (getUserDocuments s2 sid now).1.
Proof.
  intros Heq. unfold verifyDocumentAccess, getUserDocuments, getSession.
  destruct (s1 !! sid) as [a|], (s2 !! sid) as [b|]; cbn in Heq; try discriminate; [|done].
  injection Heq as Heq. cbn. by rewrite Heq.
Qed.

(** X28. Documents are isolated per session.  Adding a document to an
    existing session makes [verifyDocumentAccess] answer true for it in that
    session, keeps every document the session already had, and changes
    neither the answers nor the document lists of any other session.  For an
    unknown session nothing is stored and access is refused. *)
Theorem documents_isolated_per_session (sessions : gmap string Session)
    (sid docId : string) (metadata : Metadata) (now now' : Z) :
  (∀ s, sessions !! sid = Some s →
     let after := (addDocument sessions sid docId metadata now now').2 in
     (∀ t, (verifyDocumentAccess after sid docId t).1 = true) ∧
     (∀ t, (getUserDocuments after sid t).1
           = documents s ++ [mkDocument docId now' metadata]) ∧
     (∀ other d t, other ≠ sid →
        (verifyDocumentAccess after other d t).1 = (verifyDocumentAccess sessions other d t).1 ∧
        (getUserDocuments after other t).1 = (getUserDocuments sessions other t).1)) ∧
  (sessions !! sid = None →
     addDocument sessions sid docId metadata now now' = (None, sessions) ∧
     ∀ t, verifyDocumentAccess sessions sid docId t = (false, sessions)).
Proof.
  split.
  - intros s Hs after. subst after. unfold addDocument.
    rewrite (getSession_found sessions sid now s Hs). cbn [snd sessionId userId createdAt
      lastActivity documents].
    rewrite insert_insert_eq.
    set (s' := mkSession _ _ _ _ _).
    assert (Hlook : <[sid := s']> sessions !! sid = Some s') by apply lookup_insert_eq.
    split; [|split].
    + intros t. unfold verifyDocumentAccess.
      rewrite (getSession_found _ sid t s' Hlook). cbn [fst documents s'].
      rewrite existsb_app. cbn [existsb documentId]. rewrite String.eqb_refl.
      by rewrite orb_true_r.
    + intros t. unfold getUserDocuments.
      rewrite (getSession_found _ sid t s' Hlook). reflexivity.
    + intros other d t Hne. apply verify_by_lookup. by rewrite lookup_insert_ne.
  - intros Hnone. unfold addDocument, verifyDocumentAccess, getSession. by rewrite Hnone.
Qed.

(** X29. Sessions expire after 24 hours without activity.  The sweep keeps
    exactly the sessions whose last activity is at most 24 hours old and
    returns the number of sessions it removed; and since every read of a
    session refreshes its last activity, a session read at instant [t]
    survives every sweep up to 24 hours after [t]. *)
Theorem sessions_expire_after_a_day (sessions : gmap string Session) (now : Z) :
  let swept := cleanupExpiredSessions sessions now in
  (∀ sid s, swept.2 !! sid = Some s ↔
            sessions !! sid = Some s ∧ now - lastActivity s <= maxAge) ∧
  swept.1 = Z.of_nat (size sessions) - Z.of_nat (size swept.2) ∧
  0 <= swept.1 ∧
  (∀ sid t, is_Some (sessions !! sid) → now - t <= maxAge →
            is_Some ((cleanupExpiredSessions (getSession sessions sid t).2 now).2 !! sid)).
Proof.
  cbn zeta. unfold cleanupExpiredSessions. cbn [fst snd]. split; [|split; [|split]].
  - intros sid s. rewrite map_lookup_filter_Some. cbn [snd].
    split; intros [? ?]; split; auto; lia.
  - reflexivity.
  - pose proof (map_size_filter (λ ks : string * Session, ¬ now - lastActivity ks.2 > maxAge)
                  sessions). lia.
  - intros sid t [s Hs] Hlive. rewrite (getSession_found sessions sid t s Hs). cbn [snd].
    eexists. apply map_lookup_filter_Some. split; [apply lookup_insert_eq|].
    cbn [snd lastActivity]. lia.
Qed.
End SessionManagerMore.
